(** * Worker packets of bcoin (workers/packets.js)

    A shallow embedding of the packet classes of [packets.js]: the shared
    identity counter, the twenty packet variants with their [getSize],
    [toWriter] and [fromRaw] methods, and the [inject] methods of the two
    signing results, followed by the properties the specification states
    about them.

    Conventions.
    - A JavaScript number that holds an integer is a [Z], which is exact
      as long as the number stays below 2^53; the 32-bit conversions
      [>>> 0] and [>> 0] are written out as [to_uint32] and [to_int32].
    - A Buffer is a [list byte]; a JavaScript string is a [string], read as
      the sequence of its UTF-8 bytes.
    - A [BufferReader] over [data] at [offset] is represented by the bytes it
      has not read yet; a read that runs past the end is the error
      [EFraming].
    - A writer is represented by the bytes appended to it. *)

From Stdlib Require Import ZArith Lia Bool.
From Stdlib Require Import Strings.String Strings.Byte.
From Stdlib Require Import Lists.List.
Import ListNotations.

Local Open Scope Z_scope.

(** ** Bytes and little-endian integers *)

Definition byte_to_Z (b : byte) : Z := Z.of_N (Byte.to_N b).

(** [dst[off] = v & 0xff] *)
Definition byte_of_Z (v : Z) : byte :=
  match Byte.of_N (Z.to_N (v mod 256)) with
  | Some b => b
  | None => x00
  end.

(** [n] bytes of [v], least significant first; the bits above are dropped. *)
Fixpoint le_bytes (n : nat) (v : Z) : list byte :=
  match n with
  | O => []
  | S k => byte_of_Z v :: le_bytes k (v / 256)
  end.

Fixpoint le_value (bs : list byte) : Z :=
  match bs with
  | [] => 0
  | b :: r => byte_to_Z b + 256 * le_value r
  end.

(** [v >>> 0] and [v >> 0] *)
Definition to_uint32 (v : Z) : Z := v mod 2 ^ 32.
Definition to_int32 (v : Z) : Z := (v + 2 ^ 31) mod 2 ^ 32 - 2 ^ 31.

Definition MAX_SAFE_INTEGER : Z := 2 ^ 53 - 1.

Definition blen (bs : list byte) : Z := Z.of_nat (List.length bs).

(** Ranges of the integer fields. *)
Definition is_u8 (v : Z) : Prop := 0 <= v <= 255.
Definition is_u32 (v : Z) : Prop := 0 <= v <= 4294967295.
Definition is_i32 (v : Z) : Prop := -2147483648 <= v <= 2147483647.
Definition is_varint (v : Z) : Prop := 0 <= v <= MAX_SAFE_INTEGER.

(** A 32-bit field that may also hold the unset value -1. *)
Definition u32_or_unset (v : Z) : Prop := v = -1 \/ is_u32 v.

(** Bytes and text whose length a variable-length integer can carry. *)
Definition fits (bs : list byte) : Prop := is_varint (blen bs).
Definition text_fits (s : string) : Prop := fits (list_byte_of_string s).

(** ** Results and readers *)

Inductive error : Type :=
| EFraming        (* a read past the end of the input *)
| ESyntax         (* JSON.parse *)
| EAssert         (* a failed assert(...) of packets.js *)
| EType           (* a property read on undefined *)
| EUnknownCommand.

Inductive Res (A : Type) : Type :=
| Ok (a : A)
| Err (e : error).
Arguments Ok {A} a.
Arguments Err {A} e.

Definition rbind {A B} (r : Res A) (k : A -> Res B) : Res B :=
  match r with
  | Ok a => k a
  | Err e => Err e
  end.

Definition Parser (A : Type) : Type := list byte -> Res (A * list byte).

Definition pret {A} (a : A) : Parser A := fun s => Ok (a, s).
Definition pbind {A B} (p : Parser A) (k : A -> Parser B) : Parser B :=
  fun s => match p s with
           | Ok (a, s') => k a s'
           | Err e => Err e
           end.

(** [run p data]: the value of a [fromRaw] body; what is left unread is
    dropped. *)
Definition run {A} (p : Parser A) (data : list byte) : Res A :=
  match p data with
  | Ok (a, _) => Ok a
  | Err e => Err e
  end.

Declare Scope parser_scope.
Delimit Scope parser_scope with parser.
Notation "x <- p ;; k" := (pbind p (fun x => k))
  (at level 61, p at next level, right associativity) : parser_scope.
Notation "'do' x <- r ;; k" := (rbind r (fun x => k))
  (at level 61, x name, r at next level, right associativity).

(** ** The primitive codec

    [utils/reader], the writer and [utils/encoding] are not part of the
    sources at hand; section 4.1 of the specification fixes what the
    packets need of them. *)

(** Modelled from the spec: [bw.writeU8(v)], one byte. *)
Definition writeU8 (v : Z) : list byte := [byte_of_Z v].

(** Modelled from the spec: [bw.writeU32(v)], a fixed 4-byte field that
    holds the unsigned wraparound bit pattern of [v]. *)
Definition writeU32 (v : Z) : list byte := le_bytes 4 v.

(** Modelled from the spec: [bw.write32(v)], a signed 32-bit value as its
    two's-complement bit pattern in a fixed 4-byte field. *)
Definition write32 (v : Z) : list byte := le_bytes 4 v.

(** Modelled from the spec: [bw.writeBytes(data)], a block written as it
    is. *)
Definition writeBytes (bs : list byte) : list byte := bs.

(** Modelled from the spec: [encoding.sizeVarint(num)], the number of bytes
    of the compact encoding of [num]. *)
Definition sizeVarint (num : Z) : Z :=
  if num <? 253 then 1
  else if num <=? 65535 then 3
  else if num <=? 4294967295 then 5
  else 9.

(** Modelled from the spec: [bw.writeVarint(num)], the compact
    variable-length integer: one byte below 0xfd, else a marker byte and 2,
    4 or 8 little-endian bytes. *)
Definition writeVarint (num : Z) : list byte :=
  if num <? 253 then [byte_of_Z num]
  else if num <=? 65535 then xfd :: le_bytes 2 num
  else if num <=? 4294967295 then xfe :: le_bytes 4 num
  else xff :: le_bytes 8 num.

(** Modelled from the spec: [encoding.sizeVarBytes(data)]. *)
Definition sizeVarBytes (bs : list byte) : Z := sizeVarint (blen bs) + blen bs.

(** Modelled from the spec: [bw.writeVarBytes(data)], a variable-length
    integer length followed by exactly that many bytes. *)
Definition writeVarBytes (bs : list byte) : list byte :=
  writeVarint (blen bs) ++ bs.

(** Modelled from the spec: [encoding.sizeVarString(str, 'utf8')]. *)
Definition sizeVarString (s : string) : Z :=
  sizeVarBytes (list_byte_of_string s).

(** Modelled from the spec: [bw.writeVarString(str, 'utf8')],
    length-prefixed UTF-8 text. *)
Definition writeVarString (s : string) : list byte :=
  writeVarBytes (list_byte_of_string s).

(** Modelled from the spec: [br.readBytes(n)], exactly [n] bytes, and a
    framing error if fewer remain. *)
Definition readBytes (n : Z) : Parser (list byte) := fun s =>
  if (0 <=? n) && (n <=? blen s)
  then Ok (firstn (Z.to_nat n) s, skipn (Z.to_nat n) s)
  else Err EFraming.

(** Modelled from the spec: [br.readU8()]. *)
Definition readU8 : Parser Z := fun s =>
  match s with
  | [] => Err EFraming
  | b :: r => Ok (byte_to_Z b, r)
  end.

(** Modelled from the spec: an unsigned little-endian integer of [n]
    bytes. *)
Definition readLE (n : Z) : Parser Z :=
  pbind (readBytes n) (fun bs => pret (le_value bs)).

(** Modelled from the spec: [br.readU32()]. *)
Definition readU32 : Parser Z := readLE 4.

(** Modelled from the spec: [br.read32()], the 4-byte field read as a
    signed value. *)
Definition read32 : Parser Z := pbind readU32 (fun v => pret (to_int32 v)).

(** Modelled from the spec: [br.readVarint()]. *)
Definition readVarint : Parser Z := fun s =>
  match s with
  | [] => Err EFraming
  | b :: r =>
    let tag := byte_to_Z b in
    if tag =? 255 then readLE 8 r
    else if tag =? 254 then readLE 4 r
    else if tag =? 253 then readLE 2 r
    else Ok (tag, r)
  end.

(** Modelled from the spec: [br.readVarBytes()], failing with a framing
    error if fewer bytes remain than the length declares. *)
Definition readVarBytes : Parser (list byte) :=
  pbind readVarint readBytes.

(** Modelled from the spec: [br.readVarString('utf8')]. *)
Definition readVarString : Parser string :=
  pbind readVarBytes (fun bs => pret (string_of_list_byte bs)).

(** ** JavaScript values held by an error object

    [message], [stack] and [type] of an [Error] are read through
    [v + ''] and [v || ''], so what they hold before that matters: a
    string, or nothing. *)

Inductive jsval : Type :=
| JUndefined
| JNull
| JStr (s : string).

(** [v + ''] *)
Definition to_str (v : jsval) : string :=
  match v with
  | JUndefined => "undefined"
  | JNull => "null"
  | JStr s => s
  end.

(** [v || ''] *)
Definition or_empty (v : jsval) : string :=
  match v with
  | JStr s => s
  | JUndefined | JNull => ""
  end.

Definition falsy (v : jsval) : bool :=
  match v with
  | JStr s => (s =? "")%string
  | JUndefined | JNull => true
  end.

Definition is_string (v : jsval) : Prop := exists s, v = JStr s.

Record JsError : Type := { message : jsval; stack : jsval; type : jsval }.

(** ** The objects a packet carries

    Transactions, coin views, keyrings, scripts and witnesses live in
    [primitives/], [coins/] and [script/], and JSON in the runtime; none of
    them is part of the sources at hand.  A packet only calls their size,
    write and read methods, which is the interface below. *)

(** Modelled from the spec: the methods a packet calls on an object it
    carries, [o.getSize()] (or [o.getVarSize()]), [o.toWriter(bw)] and
    [T.fromReader(br)]; [objOk] holds of the values the codec of [T] is
    meant for. *)
Class Codec (A : Type) : Type := {
  objOk : A -> Prop;
  objSize : A -> Z;
  objWrite : A -> list byte;
  objRead : Parser A
}.

(** Modelled from the spec: a coin view, written and read for the inputs
    of a transaction: [view.getSize(tx)], [view.toWriter(bw, tx)],
    [CoinView.fromReader(br, tx)], and [new CoinView()]. *)
Class ViewCodec (T V : Type) : Type := {
  viewOk : V -> T -> Prop;
  viewSize : V -> T -> Z;
  viewWrite : V -> T -> list byte;
  viewRead : T -> Parser V;
  newView : V
}.

(** Modelled from the spec: JSON text encoding and decoding of the values
    an [EventPacket] carries: [JSON.stringify], [JSON.parse], and the empty
    array. *)
Class Json (J : Type) : Type := {
  stringify : J -> string;
  parse : string -> Res J;
  empty_array : J
}.

(** Modelled from the spec: what sections 3 and 4.1 ask of a codec: it
    reads back what it wrote and stops there, its size is the number of
    bytes it writes, and it fails with a framing error on input cut short
    by one byte. *)
Class CodecLaws (A : Type) `{Codec A} : Prop := {
  objRead_objWrite : forall (a : A) (rest : list byte),
    objOk a -> objRead (objWrite a ++ rest) = Ok (a, rest);
  objSize_objWrite : forall a : A,
    objOk a -> blen (objWrite a) = objSize a;
  objRead_short : forall a : A,
    objOk a -> objRead (removelast (objWrite a)) = Err EFraming
}.

(** Modelled from the spec: the same of a coin view, which no packet
    writes last. *)
Class ViewLaws (T V : Type) `{ViewCodec T V} : Prop := {
  viewRead_viewWrite : forall (v : V) (tx : T) (rest : list byte),
    viewOk v tx -> viewRead tx (viewWrite v tx ++ rest) = Ok (v, rest);
  viewSize_viewWrite : forall (v : V) (tx : T),
    viewOk v tx -> blen (viewWrite v tx) = viewSize v tx
}.

(** Modelled from the spec: a JSON-encodable value is parsed back from its
    text. *)
Class JsonLaws (J : Type) `{Json J} : Prop := {
  parse_stringify : forall j : J, parse (stringify j) = Ok j
}.

(** A result inside a reader. *)
Definition plift {A} (r : Res A) : Parser A := fun s =>
  match r with
  | Ok a => Ok (a, s)
  | Err e => Err e
  end.

(** [for (i = 0; i < count; i++) items.push(p())] *)
Fixpoint readMany {A} (count : nat) (p : Parser A) : Parser (list A) :=
  match count with
  | O => pret []
  | S k => pbind p (fun a => pbind (readMany k p) (fun l => pret (a :: l)))
  end.

(** ** The identity counter *)

(** [Packet.id = 0] *)
Definition Packet_id_init : Z := 0.

(** [function Packet() { this.id = ++Packet.id >>> 0; }]: from the counter
    [Packet.id] to the identity given out and the counter afterwards.

    [Packet.id] is a JS number, a double, which holds every integer from 0
    to 2^53 exactly and no odd integer beyond: [++] is the exact [+ 1] of
    this definition as long as the counter is a natural number below
    2^53 - 1, which it is from [Packet_id_init] for the first 2^53 - 1
    constructions.  The properties of [Packet] below are stated inside that
    range. *)
Definition Packet (counter : Z) : Z * Z :=
  let counter' := counter + 1 in
  (to_uint32 counter', counter').

(** ** SipHash (siphash.c)

    [uint64_t] and [uint32_t] values are integers kept below 2^64 and 2^32
    by [u64] and [to_uint32]; a pointer into a buffer is the list of the
    bytes from that position on.  [READU64] comes from [common.h], which is
    not part of the sources at hand: it is a parameter of what uses it, and
    its value is converted to [uint64_t] where the code assigns it. *)

Definition u64 (x : Z) : Z := x mod 2 ^ 64.

(** [#define ROTL(x, b) (uint64_t)(((x) << (b)) | ((x) >> (64 - (b))))], on
    a [uint64_t] [x]. *)
Definition ROTL (x b : Z) : Z :=
  u64 (Z.lor (u64 (Z.shiftl x b)) (Z.shiftr x (64 - b))).

(** [SIPROUND], on the four words [v0], [v1], [v2], [v3]. *)
Definition SIPROUND (v : Z * Z * Z * Z) : Z * Z * Z * Z :=
  let '(v0, v1, v2, v3) := v in
  let v0 := u64 (v0 + v1) in
  let v1 := ROTL v1 13 in
  let v1 := Z.lxor v1 v0 in
  let v0 := ROTL v0 32 in
  let v2 := u64 (v2 + v3) in
  let v3 := ROTL v3 16 in
  let v3 := Z.lxor v3 v2 in
  let v0 := u64 (v0 + v3) in
  let v3 := ROTL v3 21 in
  let v3 := Z.lxor v3 v0 in
  let v2 := u64 (v2 + v1) in
  let v1 := ROTL v1 17 in
  let v1 := Z.lxor v1 v2 in
  let v2 := ROTL v2 32 in
  (v0, v1, v2, v3).

(** The steps of [SIPROUND] undone, last first: a rotation by the
    complement to 64, an exclusive or by itself, an addition by a
    subtraction. *)
Definition SIPROUND_undo (v : Z * Z * Z * Z) : Z * Z * Z * Z :=
  let '(v0, v1, v2, v3) := v in
  let v2 := ROTL v2 32 in
  let v1 := Z.lxor v1 v2 in
  let v1 := ROTL v1 47 in
  let v2 := u64 (v2 - v1) in
  let v3 := Z.lxor v3 v0 in
  let v3 := ROTL v3 43 in
  let v0 := u64 (v0 - v3) in
  let v3 := Z.lxor v3 v2 in
  let v3 := ROTL v3 48 in
  let v2 := u64 (v2 - v3) in
  let v0 := ROTL v0 32 in
  let v1 := Z.lxor v1 v0 in
  let v1 := ROTL v1 51 in
  let v0 := u64 (v0 - v1) in
  (v0, v1, v2, v3).

(** A [uint64_t] value, and four of them. *)
Definition word (x : Z) : Prop := 0 <= x < 2 ^ 64.
Definition words (v : Z * Z * Z * Z) : Prop :=
  let '(v0, v1, v2, v3) := v in word v0 /\ word v1 /\ word v2 /\ word v3.

(** [(uint64_t)data[i]] *)
Definition byte_at (data : list byte) (i : nat) : Z :=
  byte_to_Z (nth i data x00).

(** The loop over the 8-byte blocks: [blocks] iterations from the pointer
    [data] and the words [v], to the pointer and the words after it. *)
Fixpoint sip_blocks (READU64 : list byte -> Z) (blocks : nat)
  (data : list byte) (v : Z * Z * Z * Z) : list byte * (Z * Z * Z * Z) :=
  match blocks with
  | O => (data, v)
  | S blocks' =>
    let '(v0, v1, v2, v3) := v in
    let d := u64 (READU64 data) in
    let data := skipn 8 data in
    let v3 := Z.lxor v3 d in
    let '(v0, v1, v2, v3) := SIPROUND (SIPROUND (v0, v1, v2, v3)) in
    let v0 := Z.lxor v0 d in
    sip_blocks READU64 blocks' data (v0, v1, v2, v3)
  end.

(** [switch (len & 7)], whose cases fall through from the one entered down
    to [case 1]. *)
Definition sip_tail (data : list byte) (len f0 : Z) : Z :=
  let left := Z.land len 7 in
  let f0 := if 7 <=? left then Z.lor f0 (Z.shiftl (byte_at data 6) 48)
            else f0 in
  let f0 := if 6 <=? left then Z.lor f0 (Z.shiftl (byte_at data 5) 40)
            else f0 in
  let f0 := if 5 <=? left then Z.lor f0 (Z.shiftl (byte_at data 4) 32)
            else f0 in
  let f0 := if 4 <=? left then Z.lor f0 (Z.shiftl (byte_at data 3) 24)
            else f0 in
  let f0 := if 3 <=? left then Z.lor f0 (Z.shiftl (byte_at data 2) 16)
            else f0 in
  let f0 := if 2 <=? left then Z.lor f0 (Z.shiftl (byte_at data 1) 8)
            else f0 in
  let f0 := if 1 <=? left then Z.lor f0 (byte_at data 0) else f0 in
  f0.

(** The words after the blocks and the last word [f0]: the finalization of
    [bcn_siphash24]. *)
Definition sip_final (v : Z * Z * Z * Z) (f0 : Z) : Z :=
  let '(v0, v1, v2, v3) := v in
  let f1 := 255 in
  let v3 := Z.lxor v3 f0 in
  let '(v0, v1, v2, v3) := SIPROUND (SIPROUND (v0, v1, v2, v3)) in
  let v0 := Z.lxor v0 f0 in
  let v2 := Z.lxor v2 f1 in
  let '(v0, v1, v2, v3) :=
    SIPROUND (SIPROUND (SIPROUND (SIPROUND (v0, v1, v2, v3)))) in
  let v0 := Z.lxor v0 v1 in
  let v0 := Z.lxor v0 v2 in
  let v0 := Z.lxor v0 v3 in
  v0.

(** [bcn_siphash24(data, len, key, shift)] *)
Definition bcn_siphash24 (READU64 : list byte -> Z) (data : list byte)
  (len : Z) (key : list byte) (shift : Z) : Z :=
  let k0 := u64 (READU64 key) in
  let k1 := u64 (READU64 (skipn 8 key)) in
  let blocks := to_uint32 (len / 8) in
  let v0 := Z.lxor 0x736f6d6570736575 k0 in
  let v1 := Z.lxor 0x646f72616e646f6d k1 in
  let v2 := Z.lxor 0x6c7967656e657261 k0 in
  let v3 := Z.lxor 0x7465646279746573 k1 in
  let f0 := u64 (Z.shiftl blocks shift) in
  let '(data, v) :=
    sip_blocks READU64 (Z.to_nat blocks) data (v0, v1, v2, v3) in
  let f0 := sip_tail data len f0 in
  sip_final v f0.

(** [bcn_siphash(data, len, key)] *)
Definition bcn_siphash (READU64 : list byte -> Z) (data : list byte)
  (len : Z) (key : list byte) : Z :=
  bcn_siphash24 READU64 data len key 56.

(** [bcn_siphash256(data, len, key)] *)
Definition bcn_siphash256 (READU64 : list byte -> Z) (data : list byte)
  (len : Z) (key : list byte) : Z :=
  bcn_siphash24 READU64 data len key 59.

(** Eight bytes read least significant first, one reading of [READU64]. *)
Definition read_le64 (p : list byte) : Z := le_value (firstn 8 p).

(** ** A small instance of the interface

    Scripts as the specification describes them on the wire, length-prefixed
    bytes; the other objects as one byte each, and JSON values as their own
    text.  The packets are run on it at concrete inputs. *)

(** One byte read as an object. *)
Definition readByte : Parser byte := fun s =>
  match s with
  | [] => Err EFraming
  | b :: r => Ok (b, r)
  end.

(** An object of one byte: the smallest codec the interface admits. *)
#[global] Instance byte_codec : Codec byte :=
  {| objOk := fun _ => True;
     objSize := fun _ => 1;
     objWrite := fun b => [b];
     objRead := readByte |}.

(** Modelled from the spec: a script on the wire, its length-prefixed
    bytes. *)
#[global] Instance bytes_codec : Codec (list byte) :=
  {| objOk := fits;
     objSize := sizeVarBytes;
     objWrite := writeVarBytes;
     objRead := readVarBytes |}.

(** A coin view of one byte, empty when that byte is 00. *)
#[global] Instance byte_view : ViewCodec byte byte :=
  {| viewOk := fun _ _ => True;
     viewSize := fun _ _ => 1;
     viewWrite := fun v _ => [v];
     viewRead := fun _ => readByte;
     newView := x00 |}.

(** JSON values standing for their own text. *)
#[global] Instance text_json : Json string :=
  {| stringify := fun j => j;
     parse := fun text => Ok text;
     empty_array := "[]"%string |}.

(** ** Packets *)

Section Packets.

Context {J TX CoinView KeyRing Script Witness : Type}.
Context {json_J : Json J} {codec_TX : Codec TX}
        {codec_View : ViewCodec TX CoinView} {codec_KeyRing : Codec KeyRing}
        {codec_Script : Codec Script} {codec_Witness : Codec Witness}.

(** Modelled from the spec: an [MTX] is a transaction together with its
    attached coin view; it is written and read as a transaction, and
    [MTX.fromReader] leaves the view of the new object empty. *)
Record MTX : Type := { mtx_tx : TX; view : CoinView }.

(** Modelled from the spec: [MTX.fromReader(br)], a transaction read into
    a new [MTX]. *)
Definition MTX_fromReader : Parser MTX :=
  pbind objRead (fun t => pret {| mtx_tx := t; view := newView |}).

(** Modelled from the spec: one coin, a value and a script, as
    [new Output()] holds them. *)
Record Output : Type := { coin_value : Z; coin_script : Script }.

(** Modelled from the spec: an input of a transaction, which holds the
    script and the witness that [inject] assigns. *)
Record Input : Type := { input_script : Script; input_witness : Witness }.

(** The payload of each variant, fields in the order of the constructor's
    parameters ([json] after [items]).  The identity a packet receives from
    [Packet] is kept apart, see [new_packet] below; so is the one drawn by
    the [new] of a [fromRaw]. *)
Inductive packet : Type :=
| EventPacket (items : J) (json : string)
| LogPacket (text : string)
| ErrorPacket (error : JsError)
| ErrorResultPacket (error : JsError)
| VerifyPacket (tx : TX) (view : CoinView) (flags : option Z)
| VerifyResultPacket (value : bool)
| SignPacket (tx : MTX) (rings : list KeyRing) (type : Z)
| SignResultPacket (total : Z) (witness : list Witness) (script : list Script)
| VerifyInputPacket (tx : TX) (index : Z) (coin : Output) (flags : option Z)
| VerifyInputResultPacket (value : bool)
| SignInputPacket (tx : MTX) (index : Z) (coin : Output) (ring : KeyRing)
                  (type : Z)
| SignInputResultPacket (value : bool) (witness : Witness) (script : Script)
| ECVerifyPacket (msg sig key : list byte)
| ECVerifyResultPacket (value : bool)
| ECSignPacket (msg key : list byte)
| ECSignResultPacket (sig : list byte)
| MinePacket (data target : list byte) (min max : Z)
| MineResultPacket (nonce : Z)
| ScryptPacket (passwd salt : list byte) (N r p len : Z)
| ScryptResultPacket (key : list byte).

(** [packetTypes] and the [cmd] of each prototype. *)
Definition cmd (p : packet) : Z :=
  match p with
  | EventPacket _ _ => 0
  | LogPacket _ => 1
  | ErrorPacket _ => 2
  | ErrorResultPacket _ => 3
  | VerifyPacket _ _ _ => 4
  | VerifyResultPacket _ => 5
  | SignPacket _ _ _ => 6
  | SignResultPacket _ _ _ => 7
  | VerifyInputPacket _ _ _ _ => 8
  | VerifyInputResultPacket _ => 9
  | SignInputPacket _ _ _ _ _ => 10
  | SignInputResultPacket _ _ _ => 11
  | ECVerifyPacket _ _ _ => 12
  | ECVerifyResultPacket _ => 13
  | ECSignPacket _ _ => 14
  | ECSignResultPacket _ => 15
  | MinePacket _ _ _ _ => 16
  | MineResultPacket _ => 17
  | ScryptPacket _ _ _ _ _ _ => 18
  | ScryptResultPacket _ => 19
  end.

(** A packet as constructed: every constructor starts with
    [Packet.call(this)], whatever the variant, and then sets the fields. *)
Definition new_packet (body : packet) (counter : Z) : (Z * packet) * Z :=
  let '(id, counter') := Packet counter in
  ((id, body), counter').

(** Packets constructed one after the other, from the counter as it
    stands. *)
Fixpoint construct (bodies : list packet) (counter : Z) : list (Z * packet) :=
  match bodies with
  | [] => []
  | body :: rest =>
    let '(made, counter') := new_packet body counter in
    made :: construct rest counter'
  end.

(** [new EventPacket(items)]: [json] is computed once, here. *)
Definition new_EventPacket (items : J) : packet :=
  EventPacket items (stringify items).

(** [flags != null ? flags : -1] *)
Definition flags_or_unset (flags : option Z) : Z :=
  match flags with
  | Some f => f
  | None => -1
  end.

(** [if (flags === -1) flags = null] *)
Definition flags_of_read (v : Z) : option Z :=
  if v =? -1 then None else Some v.

(** The loop of [SignResultPacket.getSize]: [witness[i]] is read for every
    index of [script]. *)
Fixpoint sizePairs (script : list Script) (witness : list Witness) : Res Z :=
  match script with
  | [] => Ok 0
  | s :: script' =>
    match witness with
    | [] => Err EType
    | w :: witness' =>
      do rest <- sizePairs script' witness' ;;
      Ok (objSize s + objSize w + rest)
    end
  end.

(** The loop of [SignResultPacket.toWriter], run after its assertion. *)
Fixpoint writePairs (script : list Script) (witness : list Witness)
  : list byte :=
  match script, witness with
  | s :: script', w :: witness' =>
    objWrite s ++ objWrite w ++ writePairs script' witness'
  | _, _ => []
  end.

Definition sizeError (e : JsError) : Z :=
  sizeVarString (to_str (message e))
  + sizeVarString (to_str (stack e))
  + sizeVarString (or_empty (type e)).

Definition writeError (e : JsError) : list byte :=
  writeVarString (to_str (message e))
  ++ writeVarString (to_str (stack e))
  ++ writeVarString (or_empty (type e)).

Definition getSize (p : packet) : Res Z :=
  match p with
  | EventPacket _ json => Ok (sizeVarString json)
  | LogPacket text => Ok (sizeVarString text)
  | ErrorPacket e => Ok (sizeError e)
  | ErrorResultPacket e => Ok (sizeError e)
  | VerifyPacket tx view _ => Ok (objSize tx + viewSize view tx + 4)
  | VerifyResultPacket _ => Ok 1
  | SignPacket tx rings _ =>
    let size := objSize (mtx_tx tx) + viewSize (view tx) (mtx_tx tx)
                + sizeVarint (Z.of_nat (List.length rings)) in
    let size := fold_left (fun size ring => size + objSize ring) rings size in
    Ok (size + 1)
  | SignResultPacket total witness script =>
    do pairs <- sizePairs script witness ;;
    Ok (sizeVarint total + sizeVarint (Z.of_nat (List.length script)) + pairs)
  | VerifyInputPacket tx index coin _ =>
    Ok (objSize tx + sizeVarint index + sizeVarint (coin_value coin)
        + objSize (coin_script coin) + 4)
  | VerifyInputResultPacket _ => Ok 1
  | SignInputPacket tx index coin ring _ =>
    Ok (objSize (mtx_tx tx) + sizeVarint index + sizeVarint (coin_value coin)
        + objSize (coin_script coin) + objSize ring + 1)
  | SignInputResultPacket _ witness script =>
    Ok (1 + objSize script + objSize witness)
  | ECVerifyPacket msg sig key =>
    Ok (sizeVarBytes msg + sizeVarBytes sig + sizeVarBytes key)
  | ECVerifyResultPacket _ => Ok 1
  | ECSignPacket msg key => Ok (sizeVarBytes msg + sizeVarBytes key)
  | ECSignResultPacket sig => Ok (sizeVarBytes sig)
  | MinePacket _ _ _ _ => Ok 120
  | MineResultPacket _ => Ok 4
  | ScryptPacket passwd salt _ _ _ _ =>
    Ok (sizeVarBytes passwd + sizeVarBytes salt + 16)
  | ScryptResultPacket key => Ok (sizeVarBytes key)
  end.

(** [value ? 1 : 0] *)
Definition bool_byte (value : bool) : Z := if value then 1 else 0.

Definition toWriter (p : packet) : Res (list byte) :=
  match p with
  | EventPacket _ json => Ok (writeVarString json)
  | LogPacket text => Ok (writeVarString text)
  | ErrorPacket e => Ok (writeError e)
  | ErrorResultPacket e => Ok (writeError e)
  | VerifyPacket tx view flags =>
    Ok (objWrite tx ++ viewWrite view tx ++ write32 (flags_or_unset flags))
  | VerifyResultPacket value => Ok (writeU8 (bool_byte value))
  | SignPacket tx rings type =>
    Ok (objWrite (mtx_tx tx) ++ viewWrite (view tx) (mtx_tx tx)
        ++ writeVarint (Z.of_nat (List.length rings))
        ++ flat_map objWrite rings
        ++ writeU8 type)
  | SignResultPacket total witness script =>
    if Nat.eqb (List.length script) (List.length witness)
    then Ok (writeVarint total
             ++ writeVarint (Z.of_nat (List.length script))
             ++ writePairs script witness)
    else Err EAssert
  | VerifyInputPacket tx index coin flags =>
    Ok (objWrite tx ++ writeVarint index ++ writeVarint (coin_value coin)
        ++ objWrite (coin_script coin) ++ write32 (flags_or_unset flags))
  | VerifyInputResultPacket value => Ok (writeU8 (bool_byte value))
  | SignInputPacket tx index coin ring type =>
    Ok (objWrite (mtx_tx tx) ++ writeVarint index
        ++ writeVarint (coin_value coin) ++ objWrite (coin_script coin)
        ++ objWrite ring ++ writeU8 type)
  | SignInputResultPacket value witness script =>
    Ok (writeU8 (bool_byte value) ++ objWrite script ++ objWrite witness)
  | ECVerifyPacket msg sig key =>
    Ok (writeVarBytes msg ++ writeVarBytes sig ++ writeVarBytes key)
  | ECVerifyResultPacket value => Ok (writeU8 (bool_byte value))
  | ECSignPacket msg key => Ok (writeVarBytes msg ++ writeVarBytes key)
  | ECSignResultPacket sig => Ok (writeVarBytes sig)
  | MinePacket data target min max =>
    Ok (writeBytes data ++ writeBytes target ++ writeU32 min ++ writeU32 max)
  | MineResultPacket nonce => Ok (writeU32 nonce)
  | ScryptPacket passwd salt N r p len =>
    Ok (writeVarBytes passwd ++ writeVarBytes salt
        ++ writeU32 N ++ writeU32 r ++ writeU32 p ++ writeU32 len)
  | ScryptResultPacket key => Ok (writeVarBytes key)
  end.

Local Open Scope parser_scope.

(** [new Output()], then [value] and [script] read in place. *)
Definition readCoin : Parser Output :=
  value <- readVarint ;;
  script <- objRead ;;
  pret {| coin_value := value; coin_script := script |}.

(** The pairs pushed by the loop of [SignResultPacket.fromRaw]. *)
Definition readPair : Parser (Script * Witness) :=
  script <- objRead ;;
  witness <- objRead ;;
  pret (script, witness).

Definition readError : Parser JsError :=
  message <- readVarString ;;
  stack <- readVarString ;;
  type <- readVarString ;;
  pret {| message := JStr message; stack := JStr stack; type := JStr type |}.

(** [=== 1] on the byte read *)
Definition byte_is_one (v : Z) : bool := v =? 1.

(** [if ((nonce >> 0) === -1) nonce = -1] *)
Definition nonce_of_read (nonce : Z) : Z :=
  if to_int32 nonce =? -1 then -1 else nonce.

Definition EventPacket_fromRaw : Parser packet :=
  text <- readVarString ;;
  items <- plift (parse text) ;;
  pret (EventPacket items (stringify empty_array)).

Definition LogPacket_fromRaw : Parser packet :=
  text <- readVarString ;;
  pret (LogPacket text).

Definition ErrorPacket_fromRaw : Parser packet :=
  error <- readError ;;
  pret (ErrorPacket error).

Definition ErrorResultPacket_fromRaw : Parser packet :=
  error <- readError ;;
  pret (ErrorResultPacket error).

Definition VerifyPacket_fromRaw : Parser packet :=
  tx <- objRead ;;
  view <- viewRead tx ;;
  flags <- read32 ;;
  pret (VerifyPacket tx view (flags_of_read flags)).

Definition VerifyResultPacket_fromRaw : Parser packet :=
  value <- readU8 ;;
  pret (VerifyResultPacket (byte_is_one value)).

Definition SignPacket_fromRaw : Parser packet :=
  tx <- MTX_fromReader ;;
  view <- viewRead (mtx_tx tx) ;;
  count <- readVarint ;;
  rings <- readMany (Z.to_nat count) objRead ;;
  type <- readU8 ;;
  pret (SignPacket {| mtx_tx := mtx_tx tx; view := view |} rings type).

Definition SignResultPacket_fromRaw : Parser packet :=
  total <- readVarint ;;
  count <- readVarint ;;
  pairs <- readMany (Z.to_nat count) readPair ;;
  pret (SignResultPacket total (map snd pairs) (map fst pairs)).

Definition VerifyInputPacket_fromRaw : Parser packet :=
  tx <- objRead ;;
  index <- readVarint ;;
  coin <- readCoin ;;
  flags <- read32 ;;
  pret (VerifyInputPacket tx index coin (flags_of_read flags)).

Definition VerifyInputResultPacket_fromRaw : Parser packet :=
  value <- readU8 ;;
  pret (VerifyInputResultPacket (byte_is_one value)).

Definition SignInputPacket_fromRaw : Parser packet :=
  tx <- MTX_fromReader ;;
  index <- readVarint ;;
  coin <- readCoin ;;
  ring <- objRead ;;
  type <- readU8 ;;
  pret (SignInputPacket tx index coin ring type).

Definition SignInputResultPacket_fromRaw : Parser packet :=
  value <- readU8 ;;
  script <- objRead ;;
  witness <- objRead ;;
  pret (SignInputResultPacket (byte_is_one value) witness script).

Definition ECVerifyPacket_fromRaw : Parser packet :=
  msg <- readVarBytes ;;
  sig <- readVarBytes ;;
  key <- readVarBytes ;;
  pret (ECVerifyPacket msg sig key).

Definition ECVerifyResultPacket_fromRaw : Parser packet :=
  value <- readU8 ;;
  pret (ECVerifyResultPacket (byte_is_one value)).

Definition ECSignPacket_fromRaw : Parser packet :=
  msg <- readVarBytes ;;
  key <- readVarBytes ;;
  pret (ECSignPacket msg key).

Definition ECSignResultPacket_fromRaw : Parser packet :=
  sig <- readVarBytes ;;
  pret (ECSignResultPacket sig).

Definition MinePacket_fromRaw : Parser packet :=
  data <- readBytes 80 ;;
  target <- readBytes 32 ;;
  min <- readU32 ;;
  max <- readU32 ;;
  pret (MinePacket data target min max).

Definition MineResultPacket_fromRaw : Parser packet :=
  nonce <- readU32 ;;
  pret (MineResultPacket (nonce_of_read nonce)).

Definition ScryptPacket_fromRaw : Parser packet :=
  passwd <- readVarBytes ;;
  salt <- readVarBytes ;;
  N <- readU32 ;;
  r <- readU32 ;;
  p <- readU32 ;;
  len <- readU32 ;;
  pret (ScryptPacket passwd salt N r p len).

Definition ScryptResultPacket_fromRaw : Parser packet :=
  key <- readVarBytes ;;
  pret (ScryptResultPacket key).

(** Modelled from the spec: the registry of section 4.3, which maps a
    command code to the [fromRaw] of its variant and rejects any other code;
    the parser that holds it is not part of the sources at hand. *)
Definition fromRaw_of (code : Z) : option (Parser packet) :=
  match code with
  | 0 => Some EventPacket_fromRaw
  | 1 => Some LogPacket_fromRaw
  | 2 => Some ErrorPacket_fromRaw
  | 3 => Some ErrorResultPacket_fromRaw
  | 4 => Some VerifyPacket_fromRaw
  | 5 => Some VerifyResultPacket_fromRaw
  | 6 => Some SignPacket_fromRaw
  | 7 => Some SignResultPacket_fromRaw
  | 8 => Some VerifyInputPacket_fromRaw
  | 9 => Some VerifyInputResultPacket_fromRaw
  | 10 => Some SignInputPacket_fromRaw
  | 11 => Some SignInputResultPacket_fromRaw
  | 12 => Some ECVerifyPacket_fromRaw
  | 13 => Some ECVerifyResultPacket_fromRaw
  | 14 => Some ECSignPacket_fromRaw
  | 15 => Some ECSignResultPacket_fromRaw
  | 16 => Some MinePacket_fromRaw
  | 17 => Some MineResultPacket_fromRaw
  | 18 => Some ScryptPacket_fromRaw
  | 19 => Some ScryptResultPacket_fromRaw
  | _ => None
  end.

(** Modelled from the spec: [decode(cmd, bytes)] of section 4.3; an
    unrecognized command code is an error. *)
Definition decode (code : Z) (data : list byte) : Res packet :=
  match fromRaw_of code with
  | Some fromRaw => run fromRaw data
  | None => Err EUnknownCommand
  end.

Local Close Scope parser_scope.

(** *** Injection of signing results into a transaction

    [tx.inputs] is the state; an [inject] returns its outcome and the inputs
    as it leaves them. *)

(** [tx.inputs[i]] *)
Definition input_at (inputs : list Input) (i : Z) : option Input :=
  if i <? 0 then None else nth_error inputs (Z.to_nat i).

(** [input.script = script; input.witness = witness] on [inputs[i]] *)
Fixpoint set_input (inputs : list Input) (i : nat) (script : Script)
  (witness : Witness) : list Input :=
  match inputs, i with
  | [], _ => []
  | _ :: rest, O =>
    {| input_script := script; input_witness := witness |} :: rest
  | input :: rest, S k => input :: set_input rest k script witness
  end.

(** The loop of [SignResultPacket.inject] from index [i], [steps] inputs to
    go.  Both assertions have passed when it runs, so [script[i]] and
    [witness[i]] are there at every index it visits. *)
Fixpoint inject_loop (steps i : nat) (script : list Script)
  (witness : list Witness) (inputs : list Input) : list Input :=
  match steps with
  | O => inputs
  | S steps' =>
    match nth_error script i, nth_error witness i with
    | Some s, Some w =>
      inject_loop steps' (S i) script witness (set_input inputs i s w)
    | _, _ => inputs
    end
  end.

Definition SignResultPacket_inject (p : packet) (inputs : list Input)
  : Res unit * list Input :=
  match p with
  | SignResultPacket _ witness script =>
    if negb (Nat.eqb (List.length script) (List.length inputs))
    then (Err EAssert, inputs)
    else if negb (Nat.eqb (List.length witness) (List.length inputs))
    then (Err EAssert, inputs)
    else (Ok tt, inject_loop (List.length inputs) 0 script witness inputs)
  | _ => (Err EType, inputs)
  end.

Definition SignInputResultPacket_inject (p : packet) (inputs : list Input)
  (i : Z) : Res unit * list Input :=
  match p with
  | SignInputResultPacket _ witness script =>
    match input_at inputs i with
    | Some _ => (Ok tt, set_input inputs (Z.to_nat i) script witness)
    | None => (Err EAssert, inputs)
    end
  | _ => (Err EType, inputs)
  end.

(** The input an aligned injection leaves at an index. *)
Definition signed_input (sw : Script * Witness) : Input :=
  {| input_script := fst sw; input_witness := snd sw |}.

(** *** Well-formed packets

    The field values the data model of the specification allows: integers
    within the range of the field that carries them, the two arrays of a
    [SignResultPacket] of equal length, the fixed blocks of a [MinePacket]
    of 80 and 32 bytes, [json] as the constructor computes it. *)

Definition flags_ok (flags : option Z) : Prop :=
  match flags with
  | Some f => is_i32 f
  | None => True
  end.

Definition error_fits (e : JsError) : Prop :=
  text_fits (to_str (message e)) /\ text_fits (to_str (stack e))
  /\ text_fits (or_empty (type e)).

Definition coin_ok (coin : Output) : Prop :=
  is_varint (coin_value coin) /\ objOk (coin_script coin).

Definition valid (p : packet) : Prop :=
  match p with
  | EventPacket items json => json = stringify items /\ text_fits json
  | LogPacket text => text_fits text
  | ErrorPacket e => error_fits e
  | ErrorResultPacket e => error_fits e
  | VerifyPacket tx view flags => objOk tx /\ viewOk view tx /\ flags_ok flags
  | VerifyResultPacket _ => True
  | SignPacket tx rings type =>
    objOk (mtx_tx tx) /\ viewOk (view tx) (mtx_tx tx)
    /\ Forall objOk rings /\ is_varint (Z.of_nat (List.length rings))
    /\ is_u8 type
  | SignResultPacket total witness script =>
    is_varint total /\ List.length script = List.length witness
    /\ Forall objOk script /\ Forall objOk witness
    /\ is_varint (Z.of_nat (List.length script))
  | VerifyInputPacket tx index coin flags =>
    objOk tx /\ is_varint index /\ coin_ok coin /\ flags_ok flags
  | VerifyInputResultPacket _ => True
  | SignInputPacket tx index coin ring type =>
    objOk (mtx_tx tx) /\ is_varint index /\ coin_ok coin /\ objOk ring
    /\ is_u8 type
  | SignInputResultPacket _ witness script => objOk script /\ objOk witness
  | ECVerifyPacket msg sig key => fits msg /\ fits sig /\ fits key
  | ECVerifyResultPacket _ => True
  | ECSignPacket msg key => fits msg /\ fits key
  | ECSignResultPacket sig => fits sig
  | MinePacket data target min max =>
    blen data = 80 /\ blen target = 32
    /\ u32_or_unset min /\ u32_or_unset max
  | MineResultPacket nonce => u32_or_unset nonce
  | ScryptPacket passwd salt N r p len =>
    fits passwd /\ fits salt /\ u32_or_unset N /\ u32_or_unset r
    /\ u32_or_unset p /\ u32_or_unset len
  | ScryptResultPacket key => fits key
  end.

(** What the receiving side holds after [fromRaw] on the bytes of [p]. *)
Definition received_error (e : JsError) : JsError :=
  {| message := JStr (to_str (message e));
     stack := JStr (to_str (stack e));
     type := JStr (or_empty (type e)) |}.

Definition received (p : packet) : packet :=
  match p with
  | EventPacket items _ => EventPacket items (stringify empty_array)
  | ErrorPacket e => ErrorPacket (received_error e)
  | ErrorResultPacket e => ErrorResultPacket (received_error e)
  | VerifyPacket tx view flags =>
    VerifyPacket tx view (flags_of_read (flags_or_unset flags))
  | VerifyInputPacket tx index coin flags =>
    VerifyInputPacket tx index coin (flags_of_read (flags_or_unset flags))
  | SignInputPacket tx index coin ring type =>
    SignInputPacket {| mtx_tx := mtx_tx tx; view := newView |}
                    index coin ring type
  | MinePacket data target min max =>
    MinePacket data target (to_uint32 min) (to_uint32 max)
  | MineResultPacket nonce => MineResultPacket (nonce_of_read (to_uint32 nonce))
  | ScryptPacket passwd salt N r p len =>
    ScryptPacket passwd salt (to_uint32 N) (to_uint32 r) (to_uint32 p)
                 (to_uint32 len)
  | _ => p
  end.

(** The values that are their own wire image: error fields that are
    strings already, flags other than the literal -1, a transaction of a
    [SignInputPacket] with an empty view, set 32-bit fields, and a nonce
    other than the bit pattern of the unset one. *)
Definition error_is_text (e : JsError) : Prop :=
  is_string (message e) /\ is_string (stack e) /\ is_string (type e).

Definition canonical (p : packet) : Prop :=
  match p with
  | ErrorPacket e => error_is_text e
  | ErrorResultPacket e => error_is_text e
  | VerifyPacket _ _ flags => flags <> Some (-1)
  | VerifyInputPacket _ _ _ flags => flags <> Some (-1)
  | SignInputPacket tx _ _ _ _ => view tx = newView
  | MinePacket _ _ min max => is_u32 min /\ is_u32 max
  | MineResultPacket nonce => nonce <> 4294967295
  | ScryptPacket _ _ N r p len =>
    is_u32 N /\ is_u32 r /\ is_u32 p /\ is_u32 len
  | _ => True
  end.

(** Equality of the payload fields; the [json] text an [EventPacket] keeps
    beside its [items] is not compared. *)
Definition same_fields (p q : packet) : Prop :=
  match p, q with
  | EventPacket items _, EventPacket items' _ => items = items'
  | EventPacket _ _, _ | _, EventPacket _ _ => False
  | _, _ => p = q
  end.

(** *** Signing results taken from a transaction *)

(** [total || 0] on the argument of [new SignResultPacket(total)], absent
    or a number. *)
Definition total_or_zero (total : option Z) : Z :=
  match total with
  | Some t => t
  | None => 0
  end.

(** [value || false] on the argument of [new SignInputResultPacket(value)]. *)
Definition value_or_false (value : option bool) : bool :=
  match value with
  | Some v => v
  | None => false
  end.

(** [SignResultPacket.fromTX(tx, total)]: the packet starts with empty
    arrays, and the script and the witness of every input are pushed. *)
Definition SignResultPacket_fromTX (inputs : list Input) (total : option Z)
  : packet :=
  let '(script, witness) :=
    fold_left
      (fun '(script, witness) input =>
         (script ++ [input_script input], witness ++ [input_witness input]))
      inputs ([], []) in
  SignResultPacket (total_or_zero total) witness script.

(** [SignInputResultPacket.fromTX(tx, i, value)] *)
Definition SignInputResultPacket_fromTX (inputs : list Input) (i : Z)
  (value : option bool) : Res packet :=
  match input_at inputs i with
  | Some input =>
    Ok (SignInputResultPacket (value_or_false value) (input_witness input)
                              (input_script input))
  | None => Err EAssert
  end.

(** * Properties *)

(** ** Bytes and little-endian integers *)

Lemma byte_to_Z_range (b : byte) : 0 <= byte_to_Z b <= 255.
Proof.
  unfold byte_to_Z. pose proof (Byte.to_N_bounded b). lia.
Qed.

Lemma byte_to_Z_of_Z (v : Z) : byte_to_Z (byte_of_Z v) = v mod 256.
Proof.
  unfold byte_to_Z, byte_of_Z.
  pose proof (Z.mod_pos_bound v 256 ltac:(lia)) as Hm.
  destruct (Byte.of_N (Z.to_N (v mod 256))) as [b|] eqn:E.
  - apply Byte.to_of_N in E. rewrite E. lia.
  - apply Byte.of_N_None_iff in E. lia.
Qed.

Lemma byte_of_Z_to_Z (b : byte) : byte_of_Z (byte_to_Z b) = b.
Proof.
  unfold byte_of_Z. pose proof (byte_to_Z_range b) as Hr.
  rewrite Z.mod_small by lia. unfold byte_to_Z.
  rewrite N2Z.id, Byte.of_to_N. reflexivity.
Qed.

Lemma length_le_bytes (n : nat) (v : Z) : List.length (le_bytes n v) = n.
Proof.
  revert v. induction n as [|n IH]; intros v; simpl; [reflexivity|].
  now rewrite IH.
Qed.

Lemma blen_le_bytes (n : nat) (v : Z) : blen (le_bytes n v) = Z.of_nat n.
Proof. unfold blen. now rewrite length_le_bytes. Qed.

Lemma le_value_le_bytes (n : nat) (v : Z) :
  le_value (le_bytes n v) = v mod 256 ^ Z.of_nat n.
Proof.
  revert v. induction n as [|n IH]; intros v.
  - simpl. now rewrite Z.mod_1_r.
  - cbn [le_bytes le_value]. rewrite byte_to_Z_of_Z, IH.
    rewrite Nat2Z.inj_succ, Z.pow_succ_r by lia.
    assert (Hp : 0 < 256 ^ Z.of_nat n) by (apply Z.pow_pos_nonneg; lia).
    rewrite Z.rem_mul_r by lia. reflexivity.
Qed.

Lemma blen_app (a b : list byte) : blen (a ++ b) = blen a + blen b.
Proof. unfold blen. rewrite length_app. lia. Qed.

Lemma blen_nonneg (a : list byte) : 0 <= blen a.
Proof. unfold blen. lia. Qed.

Lemma blen_cons (b : byte) (a : list byte) : blen (b :: a) = 1 + blen a.
Proof. unfold blen. cbn [List.length]. lia. Qed.

Lemma blen_removelast (a : list byte) :
  a <> [] -> blen (removelast a) = blen a - 1.
Proof.
  intros Ha. unfold blen. rewrite removelast_firstn_len, length_firstn.
  destruct a; [congruence|]. cbn [List.length]. lia.
Qed.

(** ** Readers against writers *)

Lemma readBytes_app (bs rest : list byte) :
  readBytes (blen bs) (bs ++ rest) = Ok (bs, rest).
Proof.
  unfold readBytes. rewrite blen_app.
  pose proof (blen_nonneg bs). pose proof (blen_nonneg rest).
  replace ((0 <=? blen bs) && (blen bs <=? blen bs + blen rest)) with true
    by (symmetry; apply andb_true_iff; split; apply Z.leb_le; lia).
  unfold blen. rewrite Nat2Z.id.
  rewrite firstn_app, skipn_app, Nat.sub_diag, firstn_all, skipn_all.
  simpl. now rewrite app_nil_r.
Qed.

Lemma readBytes_short (n : Z) (s : list byte) :
  blen s < n -> readBytes n s = Err EFraming.
Proof.
  intros H. unfold readBytes.
  replace (n <=? blen s) with false by (symmetry; apply Z.leb_gt; lia).
  now rewrite andb_false_r.
Qed.

Lemma readLE_app (n : nat) (v : Z) (rest : list byte) :
  readLE (Z.of_nat n) (le_bytes n v ++ rest) = Ok (v mod 256 ^ Z.of_nat n, rest).
Proof.
  unfold readLE, pbind. rewrite <- (blen_le_bytes n v) at 1.
  rewrite readBytes_app. unfold pret. now rewrite le_value_le_bytes.
Qed.

Lemma readLE_short (n : Z) (s : list byte) :
  blen s < n -> readLE n s = Err EFraming.
Proof.
  intros H. unfold readLE, pbind. now rewrite readBytes_short.
Qed.

Lemma readU8_writeU8 (v : Z) (rest : list byte) :
  readU8 (writeU8 v ++ rest) = Ok (v mod 256, rest).
Proof. unfold readU8, writeU8. cbn [app]. now rewrite byte_to_Z_of_Z. Qed.

Lemma readU32_writeU32 (v : Z) (rest : list byte) :
  readU32 (writeU32 v ++ rest) = Ok (to_uint32 v, rest).
Proof. unfold readU32, writeU32. apply (readLE_app 4). Qed.

Lemma readU32_short (s : list byte) : blen s < 4 -> readU32 s = Err EFraming.
Proof. apply readLE_short. Qed.

Lemma read32_write32 (v : Z) (rest : list byte) :
  read32 (write32 v ++ rest) = Ok (to_int32 (to_uint32 v), rest).
Proof.
  unfold read32, pbind, write32. fold (writeU32 v).
  now rewrite readU32_writeU32.
Qed.

Lemma read32_short (s : list byte) : blen s < 4 -> read32 s = Err EFraming.
Proof. intros H. unfold read32, pbind. now rewrite readU32_short. Qed.

Lemma to_int32_to_uint32 (v : Z) : is_i32 v -> to_int32 (to_uint32 v) = v.
Proof.
  unfold is_i32, to_int32, to_uint32. intros H.
  rewrite Zplus_mod_idemp_l.
  rewrite Z.mod_small by lia. lia.
Qed.

Lemma to_uint32_small (v : Z) : is_u32 v -> to_uint32 v = v.
Proof. unfold is_u32, to_uint32. intros H. apply Z.mod_small. lia. Qed.

Lemma blen_writeVarint (v : Z) : blen (writeVarint v) = sizeVarint v.
Proof.
  unfold writeVarint, sizeVarint.
  destruct (v <? 253); [reflexivity|].
  destruct (v <=? 65535); [reflexivity|].
  destruct (v <=? 4294967295); reflexivity.
Qed.

Lemma writeVarint_nonempty (v : Z) : writeVarint v <> [].
Proof.
  unfold writeVarint.
  destruct (v <? 253); [discriminate|].
  destruct (v <=? 65535); [discriminate|].
  destruct (v <=? 4294967295); discriminate.
Qed.

Lemma readVarint_writeVarint (v : Z) (rest : list byte) :
  is_varint v -> readVarint (writeVarint v ++ rest) = Ok (v, rest).
Proof.
  unfold is_varint, MAX_SAFE_INTEGER. intros Hv.
  unfold writeVarint.
  destruct (v <? 253) eqn:E1.
  { apply Z.ltb_lt in E1. unfold readVarint. cbn [app].
    rewrite byte_to_Z_of_Z, Z.mod_small by lia. cbv zeta.
    replace (v =? 255) with false by (symmetry; apply Z.eqb_neq; lia).
    replace (v =? 254) with false by (symmetry; apply Z.eqb_neq; lia).
    replace (v =? 253) with false by (symmetry; apply Z.eqb_neq; lia).
    reflexivity. }
  apply Z.ltb_ge in E1.
  destruct (v <=? 65535) eqn:E2.
  { apply Z.leb_le in E2. unfold readVarint. cbn [app].
    change (byte_to_Z xfd) with 253. cbv zeta.
    change (253 =? 255) with false. change (253 =? 254) with false.
    change (253 =? 253) with true. cbv iota.
    rewrite (readLE_app 2).
    change (256 ^ Z.of_nat 2) with 65536. now rewrite Z.mod_small by lia. }
  apply Z.leb_gt in E2.
  destruct (v <=? 4294967295) eqn:E3.
  { apply Z.leb_le in E3. unfold readVarint. cbn [app].
    change (byte_to_Z xfe) with 254. cbv zeta.
    change (254 =? 255) with false. change (254 =? 254) with true. cbv iota.
    rewrite (readLE_app 4).
    change (256 ^ Z.of_nat 4) with 4294967296.
    now rewrite Z.mod_small by lia. }
  apply Z.leb_gt in E3.
  unfold readVarint. cbn [app].
  change (byte_to_Z xff) with 255. cbv zeta.
  change (255 =? 255) with true. cbv iota.
  rewrite (readLE_app 8).
  change (256 ^ Z.of_nat 8) with 18446744073709551616.
  now rewrite Z.mod_small by lia.
Qed.

Lemma readVarint_short (v : Z) :
  readVarint (removelast (writeVarint v)) = Err EFraming.
Proof.
  unfold writeVarint.
  destruct (v <? 253); [reflexivity|].
  destruct (v <=? 65535).
  { cbn [le_bytes removelast]. unfold readVarint.
    change (byte_to_Z xfd) with 253. cbv zeta.
    change (253 =? 255) with false. change (253 =? 254) with false.
    change (253 =? 253) with true. cbv iota.
    apply readLE_short. unfold blen. cbn. lia. }
  destruct (v <=? 4294967295).
  { cbn [le_bytes removelast]. unfold readVarint.
    change (byte_to_Z xfe) with 254. cbv zeta.
    change (254 =? 255) with false. change (254 =? 254) with true. cbv iota.
    apply readLE_short. unfold blen. cbn. lia. }
  cbn [le_bytes removelast]. unfold readVarint.
  change (byte_to_Z xff) with 255. cbv zeta.
  change (255 =? 255) with true. cbv iota.
  apply readLE_short. unfold blen. cbn. lia.
Qed.

Lemma readVarBytes_writeVarBytes (bs rest : list byte) :
  fits bs -> readVarBytes (writeVarBytes bs ++ rest) = Ok (bs, rest).
Proof.
  intros H. unfold readVarBytes, writeVarBytes, pbind.
  rewrite <- app_assoc, readVarint_writeVarint by exact H.
  apply readBytes_app.
Qed.

Lemma blen_writeVarBytes (bs : list byte) :
  blen (writeVarBytes bs) = sizeVarBytes bs.
Proof.
  unfold writeVarBytes, sizeVarBytes. now rewrite blen_app, blen_writeVarint.
Qed.

Lemma readVarBytes_short (bs : list byte) :
  fits bs -> readVarBytes (removelast (writeVarBytes bs)) = Err EFraming.
Proof.
  intros H. unfold readVarBytes, writeVarBytes, pbind.
  destruct bs as [|b bs].
  - rewrite app_nil_r. now rewrite readVarint_short.
  - rewrite removelast_app by discriminate.
    rewrite readVarint_writeVarint by exact H.
    apply readBytes_short. rewrite blen_removelast by discriminate. lia.
Qed.

Lemma readVarString_writeVarString (s : string) (rest : list byte) :
  text_fits s -> readVarString (writeVarString s ++ rest) = Ok (s, rest).
Proof.
  intros H. unfold readVarString, writeVarString, pbind.
  rewrite readVarBytes_writeVarBytes by exact H.
  unfold pret. now rewrite string_of_list_byte_of_string.
Qed.

Lemma blen_writeVarString (s : string) :
  blen (writeVarString s) = sizeVarString s.
Proof. apply blen_writeVarBytes. Qed.

Lemma readVarString_short (s : string) :
  text_fits s -> readVarString (removelast (writeVarString s)) = Err EFraming.
Proof.
  intros H. unfold readVarString, writeVarString, pbind.
  now rewrite readVarBytes_short by exact H.
Qed.

Lemma readBytes_exact (n : Z) (bs rest : list byte) :
  blen bs = n -> readBytes n (bs ++ rest) = Ok (bs, rest).
Proof. intros <-. apply readBytes_app. Qed.

Lemma app_nonempty_r {A} (l l' : list A) : l' <> [] -> l ++ l' <> [].
Proof. intros H E. apply app_eq_nil in E. tauto. Qed.

Lemma writeU8_nonempty (v : Z) : writeU8 v <> [].
Proof. discriminate. Qed.

Lemma writeU32_nonempty (v : Z) : writeU32 v <> [].
Proof. discriminate. Qed.

Lemma write32_nonempty (v : Z) : write32 v <> [].
Proof. discriminate. Qed.

Lemma writeVarBytes_nonempty (bs : list byte) : writeVarBytes bs <> [].
Proof.
  unfold writeVarBytes. intros E. apply app_eq_nil in E.
  destruct E as [E _]. now apply writeVarint_nonempty in E.
Qed.

Lemma readU8_short (v : Z) : readU8 (removelast (writeU8 v)) = Err EFraming.
Proof. reflexivity. Qed.

Lemma readU32_removelast (v : Z) :
  readU32 (removelast (writeU32 v)) = Err EFraming.
Proof. apply readU32_short. unfold blen. cbn. lia. Qed.

Lemma read32_removelast (v : Z) :
  read32 (removelast (write32 v)) = Err EFraming.
Proof. apply read32_short. unfold blen. cbn. lia. Qed.

(** ** Packets against the laws of the objects they carry *)

Context {laws_J : JsonLaws J} {laws_TX : CodecLaws TX}
        {laws_View : ViewLaws TX CoinView} {laws_KeyRing : CodecLaws KeyRing}
        {laws_Script : CodecLaws Script} {laws_Witness : CodecLaws Witness}.

Lemma objWrite_nonempty {A} `{CodecLaws A} (a : A) :
  objOk a -> objWrite a <> [].
Proof.
  intros Ha E. pose proof (objRead_short a Ha) as Hs.
  pose proof (objRead_objWrite a [] Ha) as Hr.
  rewrite E in Hs, Hr. cbn in Hs, Hr. congruence.
Qed.

Lemma readMany_flat_map {A} `{CodecLaws A} (l : list A) (rest : list byte) :
  Forall objOk l ->
  readMany (List.length l) objRead (flat_map objWrite l ++ rest)
  = Ok (l, rest).
Proof.
  induction 1 as [|a l Ha Hl IH]; [reflexivity|].
  cbn [List.length readMany flat_map]. unfold pbind.
  rewrite <- app_assoc, objRead_objWrite by exact Ha.
  fold (@pbind (list A) (list A)). unfold pbind. rewrite IH. reflexivity.
Qed.

Lemma blen_flat_map {A} `{CodecLaws A} (l : list A) (size : Z) :
  Forall objOk l ->
  fold_left (fun size a => size + objSize a) l size
  = size + blen (flat_map objWrite l).
Proof.
  intros Hl. revert size.
  induction Hl as [|a l Ha Hl IH]; intros size; cbn [fold_left flat_map].
  - unfold blen. cbn. lia.
  - rewrite IH, blen_app, objSize_objWrite by exact Ha. lia.
Qed.

Lemma readMany_writePairs (script : list Script) (witness : list Witness)
  (rest : list byte) :
  List.length script = List.length witness ->
  Forall objOk script -> Forall objOk witness ->
  readMany (List.length script) readPair (writePairs script witness ++ rest)
  = Ok (combine script witness, rest).
Proof.
  intros Hlen Hs. revert witness Hlen.
  induction Hs as [|s script Hs Hss IH]; intros [|w witness] Hlen Hw;
    try discriminate; [reflexivity|].
  inversion Hw; subst.
  cbn [List.length readMany writePairs combine]. unfold pbind at 1.
  unfold readPair at 1. unfold pbind.
  rewrite <- !app_assoc.
  rewrite (objRead_objWrite s) by assumption.
  rewrite (objRead_objWrite w) by assumption.
  unfold pret at 1. fold (@pbind (list (Script * Witness))).
  unfold pbind. rewrite IH by (auto; cbn in Hlen; congruence).
  reflexivity.
Qed.

Lemma sizePairs_writePairs (script : list Script) (witness : list Witness) :
  List.length script = List.length witness ->
  Forall objOk script -> Forall objOk witness ->
  sizePairs script witness = Ok (blen (writePairs script witness)).
Proof.
  intros Hlen Hs. revert witness Hlen.
  induction Hs as [|s script Hs Hss IH]; intros [|w witness] Hlen Hw;
    try discriminate; [reflexivity|].
  inversion Hw; subst.
  cbn [sizePairs writePairs]. rewrite IH by (auto; cbn in Hlen; congruence).
  cbn [rbind]. rewrite !blen_app, !objSize_objWrite by assumption.
  f_equal. lia.
Qed.

Lemma writePairs_cons (s : Script) (script : list Script) (w : Witness)
  (witness : list Witness) :
  writePairs (s :: script) (w :: witness)
  = objWrite s ++ objWrite w ++ writePairs script witness.
Proof. reflexivity. Qed.

Lemma writePairs_nonempty (s : Script) (script : list Script)
  (w : Witness) (witness : list Witness) :
  objOk w -> writePairs (s :: script) (w :: witness) <> [].
Proof.
  intros Hw. cbn [writePairs]. apply app_nonempty_r.
  intros E. apply app_eq_nil in E. destruct E as [E _].
  now apply objWrite_nonempty in E.
Qed.

Lemma readMany_writePairs_short (script : list Script)
  (witness : list Witness) :
  script <> [] ->
  List.length script = List.length witness ->
  Forall objOk script -> Forall objOk witness ->
  readMany (List.length script) readPair
           (removelast (writePairs script witness))
  = Err EFraming.
Proof.
  intros Hne Hlen Hs. revert witness Hne Hlen.
  induction Hs as [|s script Hs Hss IH]; intros [|w witness] Hne Hlen Hw;
    try discriminate; [congruence|].
  inversion Hw as [|? ? Hw1 Hws]; subst.
  rewrite writePairs_cons.
  cbn [List.length readMany]. unfold pbind at 1.
  destruct script as [|s' script].
  - destruct witness; [|discriminate].
    cbn [writePairs]. rewrite app_nil_r.
    rewrite removelast_app by (now apply objWrite_nonempty).
    unfold readPair, pbind.
    rewrite (objRead_objWrite s) by assumption.
    now rewrite (objRead_short w) by assumption.
  - destruct witness as [|w' witness]; [discriminate|].
    inversion Hws; subst.
    rewrite removelast_app
      by (apply app_nonempty_r; now apply writePairs_nonempty).
    rewrite removelast_app by (now apply writePairs_nonempty).
    unfold readPair at 1. unfold pbind.
    rewrite (objRead_objWrite s) by assumption.
    rewrite (objRead_objWrite w) by assumption.
    unfold pret at 1. fold (@pbind (list (Script * Witness))).
    unfold pbind.
    rewrite (IH (w' :: witness))
      by (auto; try discriminate; cbn in Hlen; congruence).
    reflexivity.
Qed.

(** *** Decoding what was written *)

Lemma flags_or_unset_i32 (flags : option Z) :
  flags_ok flags -> is_i32 (flags_or_unset flags).
Proof. destruct flags; cbn; [tauto|]. intros _. unfold is_i32. lia. Qed.

Lemma byte_is_one_bool_byte (value : bool) :
  byte_is_one (bool_byte value mod 256) = value.
Proof. now destruct value. Qed.

Lemma combine_fst_snd {A B} (l : list A) (l' : list B) :
  List.length l = List.length l' ->
  map fst (combine l l') = l /\ map snd (combine l l') = l'.
Proof.
  revert l'. induction l as [|a l IH]; intros [|b l'] H; try discriminate;
    [now split|].
  cbn [combine map fst snd]. destruct (IH l') as [-> ->]; [|now split].
  now injection H.
Qed.

Lemma Ok_inj {A} (a b : A) : Ok a = Ok b -> a = b.
Proof. congruence. Qed.

Create HintDb fromRaw.
#[local] Hint Unfold EventPacket_fromRaw LogPacket_fromRaw ErrorPacket_fromRaw
  ErrorResultPacket_fromRaw VerifyPacket_fromRaw VerifyResultPacket_fromRaw
  SignPacket_fromRaw SignResultPacket_fromRaw VerifyInputPacket_fromRaw
  VerifyInputResultPacket_fromRaw SignInputPacket_fromRaw
  SignInputResultPacket_fromRaw ECVerifyPacket_fromRaw
  ECVerifyResultPacket_fromRaw ECSignPacket_fromRaw ECSignResultPacket_fromRaw
  MinePacket_fromRaw MineResultPacket_fromRaw ScryptPacket_fromRaw
  ScryptResultPacket_fromRaw readError readCoin MTX_fromReader writeError
  error_fits coin_ok : fromRaw.

Ltac split_hyps :=
  repeat match goal with
         | H : _ /\ _ |- _ => destruct H
         end.

(** One read of a [fromRaw] body against what the matching write put at
    the front of the input. *)
Ltac read_written :=
  match goal with
  | |- context [objRead (objWrite ?a ++ ?r)] =>
    rewrite (objRead_objWrite a r) by assumption
  | |- context [viewRead ?t (viewWrite ?v ?t ++ ?r)] =>
    rewrite (viewRead_viewWrite v t r) by assumption
  | |- context [readVarint (writeVarint ?v ++ ?r)] =>
    rewrite (readVarint_writeVarint v r) by assumption
  | |- context [readVarBytes (writeVarBytes ?b ++ ?r)] =>
    rewrite (readVarBytes_writeVarBytes b r) by assumption
  | |- context [readVarString (writeVarString ?t ++ ?r)] =>
    rewrite (readVarString_writeVarString t r) by assumption
  | |- context [readU8 (writeU8 ?v ++ ?r)] =>
    rewrite (readU8_writeU8 v r)
  | |- context [readU32 (writeU32 ?v ++ ?r)] =>
    rewrite (readU32_writeU32 v r)
  | |- context [read32 (write32 ?v ++ ?r)] =>
    rewrite (read32_write32 v r)
  | |- context [readBytes ?n (?b ++ ?r)] =>
    rewrite (readBytes_exact n b r) by assumption
  | |- context [parse (stringify ?j)] =>
    rewrite (parse_stringify j)
  | |- context [readMany (Z.to_nat (Z.of_nat (List.length ?l))) objRead
                         (flat_map objWrite ?l ++ ?r)] =>
    rewrite (Nat2Z.id (List.length l)), (readMany_flat_map l r) by assumption
  | |- context [readMany (Z.to_nat (Z.of_nat (List.length ?l))) readPair
                         (writePairs ?l ?l' ++ ?r)] =>
    rewrite (Nat2Z.id (List.length l)), (readMany_writePairs l l' r)
      by assumption
  end; cbv beta iota; cbn [mtx_tx view coin_value coin_script].

(** The hypotheses of [valid p], one by one, on records taken apart. *)
Ltac open_valid Hv :=
  cbn [valid] in Hv; autounfold with fromRaw in Hv; split_hyps; subst;
  repeat match goal with
         | c : Output |- _ => destruct c
         | m : MTX |- _ => destruct m
         end;
  cbn [mtx_tx view coin_value coin_script] in *.

(** The values read back, against the values written. *)
Ltac close_values :=
  cbn [received mtx_tx view];
  rewrite ?byte_is_one_bool_byte;
  rewrite ?to_int32_to_uint32 by (now apply flags_or_unset_i32);
  rewrite ?Z.mod_small by (unfold is_u8 in *; lia);
  reflexivity.

Ltac run_fromRaw :=
  unfold decode; cbn [cmd fromRaw_of]; unfold run; autounfold with fromRaw;
  unfold writeBytes; rewrite <- ?app_assoc; unfold pbind, plift, pret;
  cbv beta iota; repeat read_written.

Lemma decode_toWriter (p : packet) (bs extra : list byte) :
  valid p -> toWriter p = Ok bs ->
  decode (cmd p) (bs ++ extra) = Ok (received p).
Proof.
  intros Hv Hw.
  destruct p; open_valid Hv; cbn [toWriter] in Hw;
    try (apply Ok_inj in Hw; subst bs; run_fromRaw; now close_values).
  (* SignResultPacket: the assertion of toWriter holds *)
  match goal with
  | H : List.length _ = List.length _ |- _ =>
    rewrite H, Nat.eqb_refl in Hw; rewrite <- H in Hw;
    pose proof (combine_fst_snd _ _ H) as [Hfst Hsnd]
  end.
  apply Ok_inj in Hw; subst bs; run_fromRaw.
  now rewrite Hfst, Hsnd.
Qed.

(** *** Decoding what was written, less its last byte *)

Lemma writeVarString_nonempty (text : string) : writeVarString text <> [].
Proof. apply writeVarBytes_nonempty. Qed.

Ltac nonempty :=
  first [ apply writeU8_nonempty | apply writeU32_nonempty
        | apply write32_nonempty | apply writeVarint_nonempty
        | apply writeVarBytes_nonempty | apply writeVarString_nonempty
        | apply objWrite_nonempty; assumption
        | apply writePairs_nonempty; assumption
        | apply app_nonempty_r; nonempty ].

(** The read that meets the shortened last field. *)
Ltac read_short :=
  match goal with
  | |- context [objRead (removelast (objWrite ?a))] =>
    rewrite (objRead_short a) by assumption
  | |- context [readVarint (removelast (writeVarint ?v))] =>
    rewrite (readVarint_short v)
  | |- context [readVarBytes (removelast (writeVarBytes ?b))] =>
    rewrite (readVarBytes_short b) by assumption
  | |- context [readVarString (removelast (writeVarString ?t))] =>
    rewrite (readVarString_short t) by assumption
  | |- context [readU8 (removelast (writeU8 ?v))] =>
    rewrite (readU8_short v)
  | |- context [readU32 (removelast (writeU32 ?v))] =>
    rewrite (readU32_removelast v)
  | |- context [read32 (removelast (write32 ?v))] =>
    rewrite (read32_removelast v)
  end; cbv beta iota.

Ltac run_fromRaw_short :=
  unfold decode; cbn [cmd fromRaw_of]; unfold run; autounfold with fromRaw;
  unfold writeBytes; rewrite <- ?app_assoc;
  rewrite ?removelast_app by nonempty;
  unfold pbind, plift, pret; cbv beta iota; repeat read_written; read_short.

Lemma decode_toWriter_short (p : packet) (bs : list byte) :
  valid p -> toWriter p = Ok bs ->
  decode (cmd p) (removelast bs) = Err EFraming.
Proof.
  intros Hv Hw.
  destruct p; open_valid Hv; cbn [toWriter] in Hw;
    try (apply Ok_inj in Hw; subst bs; run_fromRaw_short; reflexivity).
  (* SignResultPacket: the last field is the count, or the last witness *)
  match goal with
  | H : List.length _ = List.length _ |- _ =>
    rewrite H, Nat.eqb_refl in Hw; rewrite <- H in Hw; rename H into Hlen
  end.
  apply Ok_inj in Hw; subst bs.
  destruct script as [|s script].
  - destruct witness; [|discriminate].
    cbn [writePairs List.length]. rewrite app_nil_r.
    run_fromRaw_short. reflexivity.
  - destruct witness as [|w witness]; [discriminate|].
    inversion H2; subst.
    unfold decode; cbn [cmd fromRaw_of]; unfold run, SignResultPacket_fromRaw.
    rewrite !removelast_app by nonempty.
    unfold pbind. repeat read_written.
    rewrite Nat2Z.id, readMany_writePairs_short by (auto; discriminate).
    reflexivity.
Qed.

(** *** Sizes *)

Lemma toWriter_valid (p : packet) :
  valid p -> exists bs, toWriter p = Ok bs.
Proof.
  intros Hv. destruct p; cbn [toWriter]; try (eexists; reflexivity).
  cbn [valid] in Hv. destruct Hv as (_ & Hlen & _).
  rewrite Hlen, Nat.eqb_refl. eexists; reflexivity.
Qed.

Lemma blen_writeU8 (v : Z) : blen (writeU8 v) = 1.
Proof. reflexivity. Qed.

Lemma blen_writeU32 (v : Z) : blen (writeU32 v) = 4.
Proof. reflexivity. Qed.

Lemma blen_write32 (v : Z) : blen (write32 v) = 4.
Proof. reflexivity. Qed.

Ltac measure :=
  repeat first
    [ rewrite blen_app
    | rewrite blen_writeVarint
    | rewrite blen_writeVarBytes
    | rewrite blen_writeVarString
    | rewrite blen_writeU8
    | rewrite blen_writeU32
    | rewrite blen_write32
    | match goal with
      | |- context [blen (objWrite ?a)] =>
        rewrite (objSize_objWrite a) by assumption
      | |- context [blen (viewWrite ?v ?t)] =>
        rewrite (viewSize_viewWrite v t) by assumption
      end ].

Lemma getSize_toWriter (p : packet) (bs : list byte) :
  valid p -> toWriter p = Ok bs -> getSize p = Ok (blen bs).
Proof.
  intros Hv Hw.
  destruct p; open_valid Hv; cbn [toWriter] in Hw;
    try (apply Ok_inj in Hw; subst bs; cbn [getSize]; unfold sizeError,
         writeError, writeBytes; cbn [mtx_tx view coin_value coin_script];
         measure; f_equal; lia).
  - (* SignPacket *)
    apply Ok_inj in Hw; subst bs. cbn [getSize mtx_tx view]. cbv zeta.
    rewrite blen_flat_map by assumption. measure. f_equal. lia.
  - (* SignResultPacket *)
    match goal with
    | H : List.length _ = List.length _ |- _ =>
      rewrite H, Nat.eqb_refl in Hw; rewrite <- H in Hw; rename H into Hlen
    end.
    apply Ok_inj in Hw; subst bs. cbn [getSize].
    rewrite sizePairs_writePairs by assumption. cbn [rbind].
    measure. f_equal. lia.
Qed.

(** *** What is received, against what was sent *)

Lemma flags_of_read_or_unset (flags : option Z) :
  flags <> Some (-1) -> flags_of_read (flags_or_unset flags) = flags.
Proof.
  destruct flags as [f|]; cbn; [|reflexivity].
  intros Hf. unfold flags_of_read.
  destruct (f =? -1) eqn:E; [|reflexivity].
  apply Z.eqb_eq in E. congruence.
Qed.

Lemma nonce_of_read_to_uint32 (nonce : Z) :
  u32_or_unset nonce -> nonce <> 4294967295 ->
  nonce_of_read (to_uint32 nonce) = nonce.
Proof.
  intros [->|Hn] Hne; [reflexivity|].
  rewrite to_uint32_small by exact Hn.
  unfold is_u32 in Hn. unfold nonce_of_read, to_int32.
  change (2 ^ 31) with 2147483648. change (2 ^ 32) with 4294967296.
  destruct (Z_lt_le_dec nonce 2147483648) as [Hlt|Hge].
  - rewrite Z.mod_small by lia.
    replace (nonce + 2147483648 - 2147483648 =? -1) with false
      by (symmetry; apply Z.eqb_neq; lia).
    reflexivity.
  - replace ((nonce + 2147483648) mod 4294967296) with (nonce - 2147483648)
      by (apply (Zmod_unique _ _ 1); lia).
    replace (nonce - 2147483648 - 2147483648 =? -1) with false
      by (symmetry; apply Z.eqb_neq; lia).
    reflexivity.
Qed.

Lemma received_error_text (e : JsError) :
  error_is_text e -> received_error e = e.
Proof.
  destruct e as [m s t]. unfold error_is_text, is_string. cbn.
  intros ([m' ->] & [s' ->] & [t' ->]). reflexivity.
Qed.

Lemma received_canonical (p : packet) :
  valid p -> canonical p -> same_fields p (received p).
Proof.
  intros Hv Hc.
  destruct p; cbn [valid canonical] in Hv, Hc; cbn [received same_fields];
    try reflexivity.
  - now rewrite received_error_text.
  - now rewrite received_error_text.
  - now rewrite flags_of_read_or_unset.
  - now rewrite flags_of_read_or_unset.
  - destruct tx as [t v]. cbn in Hc. now subst.
  - destruct Hc as [Hmin Hmax]. now rewrite !to_uint32_small.
  - now rewrite nonce_of_read_to_uint32.
  - destruct Hc as (HN & Hr & Hp & Hl). now rewrite !to_uint32_small.
Qed.

(** *** The laws of the specification *)

(** C1, as amended.  Round trip: a well-formed packet whose fields are
    their own wire image ([canonical]) is written, and decoding those bytes
    under its command code gives a packet with the same fields. *)
Theorem roundtrip_canonical (p : packet) :
  valid p -> canonical p ->
  exists bs q,
    toWriter p = Ok bs /\ decode (cmd p) bs = Ok q /\ same_fields p q.
Proof.
  intros Hv Hc. destruct (toWriter_valid p Hv) as [bs Hbs].
  exists bs, (received p). split; [exact Hbs|]. split.
  - rewrite <- (app_nil_r bs). now apply decode_toWriter.
  - now apply received_canonical.
Qed.

(** C2.  Size accuracy: a well-formed packet is written, and the number of
    bytes written is what [getSize] returns. *)
Theorem size_accuracy (p : packet) :
  valid p ->
  exists bs,
    toWriter p = Ok bs /\ getSize p = Ok (Z.of_nat (List.length bs)).
Proof.
  intros Hv. destruct (toWriter_valid p Hv) as [bs Hbs].
  exists bs. split; [exact Hbs|]. now apply getSize_toWriter.
Qed.

(** C5.  Truncation: the bytes of a well-formed packet without their last
    byte are rejected by the decoder with a framing error. *)
Theorem truncation_rejected (p : packet) :
  valid p ->
  exists bs,
    toWriter p = Ok bs /\ decode (cmd p) (removelast bs) = Err EFraming.
Proof.
  intros Hv. destruct (toWriter_valid p Hv) as [bs Hbs].
  exists bs. split; [exact Hbs|]. now apply decode_toWriter_short.
Qed.

(** C8.  Trailing bytes: the bytes of a well-formed packet decode, and they
    decode to the same packet with any bytes appended. *)
Theorem trailing_bytes_ignored (p : packet) :
  valid p ->
  exists bs q,
    toWriter p = Ok bs /\ decode (cmd p) bs = Ok q
    /\ forall extra, decode (cmd p) (bs ++ extra) = Ok q.
Proof.
  intros Hv. destruct (toWriter_valid p Hv) as [bs Hbs].
  exists bs, (received p). split; [exact Hbs|]. split.
  - rewrite <- (app_nil_r bs). now apply decode_toWriter.
  - intros extra. now apply decode_toWriter.
Qed.

(** *** Injection *)

Lemma set_input_app (done todo : list Input) (input : Input) (s : Script)
  (w : Witness) :
  set_input (done ++ input :: todo) (List.length done) s w
  = done ++ signed_input (s, w) :: todo.
Proof.
  induction done as [|d done IH]; [reflexivity|].
  cbn [app List.length set_input]. now rewrite IH.
Qed.

Lemma nth_error_middle {A} (l l' : list A) (a : A) :
  nth_error (l ++ a :: l') (List.length l) = Some a.
Proof. induction l as [|b l IH]; [reflexivity|]. exact IH. Qed.

Lemma inject_loop_spec (todo : list Input) :
  forall (done : list Input) (sd st : list Script) (wd wt : list Witness),
    List.length sd = List.length done ->
    List.length wd = List.length done ->
    List.length st = List.length todo ->
    List.length wt = List.length todo ->
    inject_loop (List.length todo) (List.length done) (sd ++ st) (wd ++ wt)
                (done ++ todo)
    = done ++ map signed_input (combine st wt).
Proof.
  induction todo as [|input todo IH]; intros done sd st wd wt Hsd Hwd Hst Hwt.
  - destruct st; [|discriminate]. cbn. reflexivity.
  - destruct st as [|s st]; [discriminate|].
    destruct wt as [|w wt]; [discriminate|].
    cbn [List.length inject_loop].
    rewrite <- Hsd at 1. rewrite nth_error_middle.
    rewrite <- Hwd at 1. rewrite nth_error_middle.
    rewrite set_input_app.
    replace (S (List.length done))
      with (List.length (done ++ [signed_input (s, w)]))
      by (rewrite length_app; cbn; lia).
    replace (done ++ signed_input (s, w) :: todo)
      with ((done ++ [signed_input (s, w)]) ++ todo)
      by (now rewrite <- app_assoc).
    replace (sd ++ s :: st) with ((sd ++ [s]) ++ st)
      by (now rewrite <- app_assoc).
    replace (wd ++ w :: wt) with ((wd ++ [w]) ++ wt)
      by (now rewrite <- app_assoc).
    rewrite IH.
    + rewrite <- app_assoc. reflexivity.
    + rewrite !length_app. cbn. lia.
    + rewrite !length_app. cbn. lia.
    + cbn in Hst. lia.
    + cbn in Hwt. lia.
Qed.

(** An aligned [SignResultPacket] is injected whole: every input receives
    the script and the witness at its index. *)
Lemma SignResultPacket_inject_aligned (total : Z) (witness : list Witness)
  (script : list Script) (inputs : list Input) :
  List.length script = List.length inputs ->
  List.length witness = List.length inputs ->
  SignResultPacket_inject (SignResultPacket total witness script) inputs
  = (Ok tt, map signed_input (combine script witness)).
Proof.
  intros Hs Hw. cbn [SignResultPacket_inject].
  rewrite Hs, Hw, Nat.eqb_refl. cbn [negb].
  f_equal.
  exact (inject_loop_spec inputs [] [] script [] witness
           eq_refl eq_refl Hs Hw).
Qed.

(** C4.  Injection alignment: a [SignResultPacket] whose script or witness
    array differs in length from the inputs of the transaction is rejected
    by [inject] and the inputs are left as they were; so is a
    [SignInputResultPacket] at an index that has no input. *)
Theorem inject_rejects_misaligned (total : Z) (witness : list Witness)
  (script : list Script) (value : bool) (w : Witness) (s : Script)
  (inputs : list Input) (i : Z) :
  (List.length script <> List.length inputs
   \/ List.length witness <> List.length inputs ->
   SignResultPacket_inject (SignResultPacket total witness script) inputs
   = (Err EAssert, inputs))
  /\ (input_at inputs i = None ->
      SignInputResultPacket_inject (SignInputResultPacket value w s) inputs i
      = (Err EAssert, inputs)).
Proof.
  split.
  - intros H. cbn [SignResultPacket_inject].
    destruct (Nat.eqb (List.length script) (List.length inputs)) eqn:Es;
      [|reflexivity].
    destruct (Nat.eqb (List.length witness) (List.length inputs)) eqn:Ew;
      [|reflexivity].
    apply Nat.eqb_eq in Es, Ew. tauto.
  - intros H. cbn [SignInputResultPacket_inject]. now rewrite H.
Qed.

(** *** Identities *)

Lemma construct_ids (bodies : list packet) :
  forall c : Z,
    map fst (construct bodies c)
    = map (fun k => to_uint32 (c + 1 + Z.of_nat k))
          (seq 0 (List.length bodies)).
Proof.
  induction bodies as [|body bodies IH]; intros c; [reflexivity|].
  cbn [construct]. unfold new_packet, Packet.
  cbn [map fst List.length seq]. rewrite IH.
  rewrite <- seq_shift, map_map. f_equal.
  - f_equal. lia.
  - apply map_ext. intros k. f_equal. lia.
Qed.

Lemma nth_map_seq (f : nat -> Z) (n k : nat) :
  (k < n)%nat -> nth k (map f (seq 0 n)) 0 = f k.
Proof.
  intros Hk.
  rewrite (nth_indep _ 0 (f O)) by (now rewrite length_map, length_seq).
  rewrite (map_nth f (seq 0 n) O k), seq_nth by exact Hk. reflexivity.
Qed.

(** C6.  Identity monotonicity: as long as the counter stays a natural
    number below 2^53, where the increment of the code is exact, the packets
    constructed in sequence, of whatever variants, receive the identities
    counter+1, counter+2, ... modulo 2^32; each identity is its predecessor
    plus one modulo 2^32, and two of them are equal only if the packets are
    a multiple of 2^32 constructions apart. *)
Theorem identity_monotone (bodies : list packet) (c : Z) :
  0 <= c ->
  c + Z.of_nat (List.length bodies) < 2 ^ 53 ->
  let ids := map fst (construct bodies c) in
  List.length ids = List.length bodies
  /\ (forall k, (k < List.length bodies)%nat ->
        nth k ids 0 = to_uint32 (c + 1 + Z.of_nat k))
  /\ (forall k, (S k < List.length bodies)%nat ->
        nth (S k) ids 0 = to_uint32 (nth k ids 0 + 1))
  /\ (forall i j, (i < j < List.length bodies)%nat ->
        nth i ids 0 = nth j ids 0 ->
        (Z.of_nat j - Z.of_nat i) mod 2 ^ 32 = 0).
Proof.
  intros _ _ ids.
  assert (Hids : forall k, (k < List.length bodies)%nat ->
            nth k ids 0 = to_uint32 (c + 1 + Z.of_nat k)).
  { intros k Hk. unfold ids. rewrite construct_ids.
    rewrite (nth_map_seq _ _ _ Hk). reflexivity. }
  split; [|split; [exact Hids|split]].
  - unfold ids. now rewrite construct_ids, length_map, length_seq.
  - intros k Hk. rewrite (Hids (S k)) by exact Hk.
    rewrite (Hids k) by lia. unfold to_uint32.
    rewrite Zplus_mod_idemp_l. f_equal. lia.
  - intros i j Hij E. rewrite (Hids i), (Hids j) in E by lia.
    unfold to_uint32 in E.
    replace (Z.of_nat j - Z.of_nat i)
      with ((c + 1 + Z.of_nat j) - (c + 1 + Z.of_nat i)) by lia.
    rewrite Zminus_mod, E, Z.sub_diag. reflexivity.
Qed.

(** C7, as amended.  The counter starts at 0 and is incremented before it
    is read: the first packet constructed receives identity 1. *)
Theorem first_identity_is_one (body : packet) :
  Packet Packet_id_init = (1, 1)
  /\ construct [body] Packet_id_init = [(1, body)].
Proof. split; reflexivity. Qed.

(** *** Result bytes and error text *)

Lemma byte_is_one_iff (b : byte) :
  byte_is_one (byte_to_Z b) = true <-> b = x01.
Proof.
  unfold byte_is_one. split.
  - intros H. apply Z.eqb_eq in H.
    rewrite <- (byte_of_Z_to_Z b), H. reflexivity.
  - intros ->. reflexivity.
Qed.

(** C9.  Result bytes: the three one-byte results and the success flag of
    a [SignInputResultPacket] are read, without error, as whether the byte
    is 1; that is true of the byte 01 alone. *)
Theorem result_byte_is_one (b : byte) (rest : list byte) (s : Script)
  (w : Witness) :
  objOk s -> objOk w ->
  run VerifyResultPacket_fromRaw (b :: rest)
  = Ok (VerifyResultPacket (byte_is_one (byte_to_Z b)))
  /\ run VerifyInputResultPacket_fromRaw (b :: rest)
     = Ok (VerifyInputResultPacket (byte_is_one (byte_to_Z b)))
  /\ run ECVerifyResultPacket_fromRaw (b :: rest)
     = Ok (ECVerifyResultPacket (byte_is_one (byte_to_Z b)))
  /\ run SignInputResultPacket_fromRaw
         (b :: objWrite s ++ objWrite w ++ rest)
     = Ok (SignInputResultPacket (byte_is_one (byte_to_Z b)) w s)
  /\ (byte_is_one (byte_to_Z b) = true <-> b = x01).
Proof.
  intros Hs Hw. repeat split; try reflexivity; try apply byte_is_one_iff.
  unfold run, SignInputResultPacket_fromRaw.
  unfold pbind, pret, readU8. cbv beta iota.
  rewrite (objRead_objWrite s) by exact Hs. cbv beta iota.
  rewrite (objRead_objWrite w) by exact Hw. reflexivity.
Qed.

Lemma or_empty_falsy (v : jsval) : falsy v = true -> or_empty v = ""%string.
Proof.
  destruct v as [| |s]; try reflexivity. cbn. apply String.eqb_eq.
Qed.

Lemma readError_text (data : list byte) (e : JsError) (rest : list byte) :
  readError data = Ok (e, rest) ->
  exists m s t, e = {| message := JStr m; stack := JStr s; type := JStr t |}.
Proof.
  unfold readError, pbind, pret.
  destruct (readVarString data) as [[m r1]|]; [|discriminate].
  destruct (readVarString r1) as [[s r2]|]; [|discriminate].
  destruct (readVarString r2) as [[t r3]|]; [|discriminate].
  intros H. apply Ok_inj in H. exists m, s, t. congruence.
Qed.

(** C10.  Error text: every error is written as three strings.  [message]
    and [stack] are turned into strings, [undefined] into the text
    "undefined" and [null] into the text "null", a string into itself; the
    type tag is written as it is when it is a string and as the empty string
    when it is absent or falsy.  And whatever bytes are read as an
    [ErrorPacket] or an [ErrorResultPacket], the three fields of the error
    are strings. *)
Theorem error_fields_are_text (e : JsError) (data : list byte) (q : packet) :
  let text (v : jsval) : string :=
    match v with
    | JUndefined => "undefined"%string
    | JNull => "null"%string
    | JStr s => s
    end in
  let tag (v : jsval) : string :=
    match v with
    | JStr s => s
    | _ => EmptyString
    end in
  let written :=
    writeVarString (text (message e)) ++ writeVarString (text (stack e))
    ++ writeVarString (tag (type e)) in
  (toWriter (ErrorPacket e) = Ok written
   /\ toWriter (ErrorResultPacket e) = Ok written)
  /\ (falsy (type e) = true ->
      toWriter (ErrorPacket e)
      = Ok (writeVarString (text (message e))
            ++ writeVarString (text (stack e)) ++ [x00])
      /\ toWriter (ErrorResultPacket e)
         = Ok (writeVarString (text (message e))
               ++ writeVarString (text (stack e)) ++ [x00]))
  /\ (run ErrorPacket_fromRaw data = Ok q ->
      exists m s t,
        q = ErrorPacket
              {| message := JStr m; stack := JStr s; type := JStr t |})
  /\ (run ErrorResultPacket_fromRaw data = Ok q ->
      exists m s t,
        q = ErrorResultPacket
              {| message := JStr m; stack := JStr s; type := JStr t |}).
Proof.
  intros text tag written.
  assert (Htext : forall v, to_str v = text v) by (intros [| |s]; reflexivity).
  assert (Htag : forall v, or_empty v = tag v) by (intros [| |s]; reflexivity).
  assert (Hw : toWriter (ErrorPacket e) = Ok written
               /\ toWriter (ErrorResultPacket e) = Ok written).
  { cbn [toWriter]. unfold writeError, written.
    rewrite !Htext, Htag. split; reflexivity. }
  split; [exact Hw|split; [|split]].
  - intros Hf. destruct Hw as [-> ->]. unfold written.
    rewrite <- Htag, (or_empty_falsy _ Hf). split; reflexivity.
  - unfold run, ErrorPacket_fromRaw, pbind.
    destruct (readError data) as [[e' r]|] eqn:E; [|discriminate].
    unfold pret. intros H. apply Ok_inj in H. subst q.
    destruct (readError_text _ _ _ E) as (m & s & t & ->). now exists m, s, t.
  - unfold run, ErrorResultPacket_fromRaw, pbind.
    destruct (readError data) as [[e' r]|] eqn:E; [|discriminate].
    unfold pret. intros H. apply Ok_inj in H. subst q.
    destruct (readError_text _ _ _ E) as (m & s & t & ->). now exists m, s, t.
Qed.

(** *** Sentinels *)

(** Null flags and the unset nonce are received as they were sent; the
    unset bounds of a [MinePacket] are received as 4294967295. *)
Lemma sentinels_received (tx : TX) (view : CoinView) (index : Z)
  (coin : Output) (data target : list byte) :
  received (VerifyPacket tx view None) = VerifyPacket tx view None
  /\ received (VerifyInputPacket tx index coin None)
     = VerifyInputPacket tx index coin None
  /\ received (MineResultPacket (-1)) = MineResultPacket (-1)
  /\ received (MinePacket data target (-1) (-1))
     = MinePacket data target 4294967295 4294967295.
Proof. repeat split. Qed.

(** ** Further properties of the packets *)

(** *** Signing results taken from a transaction and injected *)

Lemma fromTX_fold (inputs : list Input) :
  forall (script : list Script) (witness : list Witness),
    fold_left
      (fun '(script, witness) input =>
         (script ++ [input_script input], witness ++ [input_witness input]))
      inputs (script, witness)
    = (script ++ map input_script inputs,
       witness ++ map input_witness inputs).
Proof.
  induction inputs as [|input inputs IH]; intros script witness.
  - cbn. now rewrite !app_nil_r.
  - cbn [fold_left map]. rewrite IH, <- !app_assoc. reflexivity.
Qed.

Lemma SignResultPacket_fromTX_maps (inputs : list Input) (total : option Z) :
  SignResultPacket_fromTX inputs total
  = SignResultPacket (total_or_zero total) (map input_witness inputs)
                     (map input_script inputs).
Proof. unfold SignResultPacket_fromTX. now rewrite fromTX_fold. Qed.

Lemma signed_inputs_combine (script : list Script) (witness : list Witness) :
  List.length script = List.length witness ->
  map input_script (map signed_input (combine script witness)) = script
  /\ map input_witness (map signed_input (combine script witness)) = witness.
Proof.
  intros H. rewrite !map_map.
  destruct (combine_fst_snd script witness H) as [Hs Hw].
  split; [rewrite <- Hs at 2 | rewrite <- Hw at 2]; reflexivity.
Qed.

(** What [fromTX] takes from one transaction, [inject] gives to another of
    as many inputs: afterwards every input holds the script and the witness
    of the input at its index in the first. *)
Theorem fromTX_then_inject (inputs inputs' : list Input) (total : option Z) :
  List.length inputs' = List.length inputs ->
  exists result,
    SignResultPacket_inject (SignResultPacket_fromTX inputs total) inputs'
    = (Ok tt, result)
    /\ map input_script result = map input_script inputs
    /\ map input_witness result = map input_witness inputs.
Proof.
  intros Hlen. rewrite SignResultPacket_fromTX_maps.
  rewrite SignResultPacket_inject_aligned
    by (rewrite length_map; congruence).
  eexists. split; [reflexivity|].
  apply signed_inputs_combine. now rewrite !length_map.
Qed.

(** The packet [fromTX] builds has one script and one witness for each
    input, in order, so the assertion of its [toWriter] holds. *)
Theorem fromTX_aligned (inputs : list Input) (total : option Z) :
  exists witness script bs,
    SignResultPacket_fromTX inputs total
    = SignResultPacket (total_or_zero total) witness script
    /\ script = map input_script inputs
    /\ witness = map input_witness inputs
    /\ toWriter (SignResultPacket_fromTX inputs total) = Ok bs.
Proof.
  rewrite SignResultPacket_fromTX_maps.
  eexists _, _, _. repeat split. cbn [toWriter].
  now rewrite !length_map, Nat.eqb_refl.
Qed.

Lemma length_set_input (inputs : list Input) (i : nat) (s : Script)
  (w : Witness) :
  List.length (set_input inputs i s w) = List.length inputs.
Proof.
  revert i. induction inputs as [|input inputs IH]; intros [|i];
    cbn [set_input List.length]; auto.
Qed.

Lemma nth_error_set_input_same (inputs : list Input) (i : nat) (s : Script)
  (w : Witness) :
  (i < List.length inputs)%nat ->
  nth_error (set_input inputs i s w) i = Some (signed_input (s, w)).
Proof.
  revert i. induction inputs as [|input inputs IH]; intros [|i] Hi;
    cbn [List.length] in Hi; try lia; cbn [set_input nth_error].
  - reflexivity.
  - apply IH. lia.
Qed.

Lemma nth_error_set_input_other (inputs : list Input) (i k : nat)
  (s : Script) (w : Witness) :
  k <> i -> nth_error (set_input inputs i s w) k = nth_error inputs k.
Proof.
  revert i k. induction inputs as [|input inputs IH]; intros [|i] [|k] Hk;
    cbn [set_input nth_error]; try reflexivity; try congruence.
  apply IH. congruence.
Qed.

Lemma input_at_Some (inputs : list Input) (i : Z) :
  input_at inputs i <> None <-> 0 <= i < Z.of_nat (List.length inputs).
Proof.
  unfold input_at. destruct (i <? 0) eqn:E.
  - apply Z.ltb_lt in E. split; [congruence|lia].
  - apply Z.ltb_ge in E. rewrite nth_error_Some. lia.
Qed.

(** [SignInputResultPacket.fromTX(tx, i, value)] and
    [SignInputResultPacket.inject(tx, i)] accept exactly the indices of the
    inputs of [tx], 0 up to their number less one, and fail on their
    assertion at any other. *)
Theorem SignInputResultPacket_index_bounds (inputs : list Input) (i : Z)
  (value : option bool) (v : bool) (w : Witness) (s : Script) :
  (SignInputResultPacket_fromTX inputs i value = Err EAssert
   <-> ~ 0 <= i < Z.of_nat (List.length inputs))
  /\ (SignInputResultPacket_inject (SignInputResultPacket v w s) inputs i
      = (Err EAssert, inputs)
      <-> ~ 0 <= i < Z.of_nat (List.length inputs)).
Proof.
  pose proof (input_at_Some inputs i) as Hi.
  unfold SignInputResultPacket_fromTX. cbn [SignInputResultPacket_inject].
  destruct (input_at inputs i) as [input|].
  - assert (Hin : 0 <= i < Z.of_nat (List.length inputs))
      by (apply Hi; discriminate).
    split; split; intros H; try discriminate; tauto.
  - assert (Hout : ~ 0 <= i < Z.of_nat (List.length inputs))
      by (intros H; apply Hi in H; congruence).
    split; split; intros _; auto.
Qed.

(** One input taken by [fromTX] at index [i] of a transaction and injected
    at index [j] of another: input [j] then holds that script and that
    witness, the number of inputs is the same, and every other input is as
    it was. *)
Theorem SignInputResultPacket_fromTX_then_inject (inputs inputs' : list Input)
  (i j : Z) (value : option bool) (p : packet) :
  SignInputResultPacket_fromTX inputs i value = Ok p ->
  0 <= j < Z.of_nat (List.length inputs') ->
  exists input result,
    input_at inputs i = Some input
    /\ SignInputResultPacket_inject p inputs' j = (Ok tt, result)
    /\ List.length result = List.length inputs'
    /\ option_map input_script (input_at result j) = Some (input_script input)
    /\ option_map input_witness (input_at result j)
       = Some (input_witness input)
    /\ forall k, k <> j -> input_at result k = input_at inputs' k.
Proof.
  intros Hp Hj. unfold SignInputResultPacket_fromTX in Hp.
  destruct (input_at inputs i) as [input|] eqn:Ei; [|discriminate].
  apply Ok_inj in Hp. subst p. exists input.
  cbn [SignInputResultPacket_inject].
  destruct (input_at inputs' j) as [input'|] eqn:Ej;
    [|apply input_at_Some in Hj; congruence].
  eexists. split; [reflexivity|]. split; [reflexivity|].
  split; [apply length_set_input|].
  assert (Hat : input_at
                  (set_input inputs' (Z.to_nat j) (input_script input)
                             (input_witness input)) j
                = Some (signed_input (input_script input,
                                      input_witness input))).
  { unfold input_at.
    replace (j <? 0) with false by (symmetry; apply Z.ltb_ge; lia).
    apply nth_error_set_input_same. lia. }
  rewrite Hat. split; [reflexivity|]. split; [reflexivity|].
  intros k Hk. unfold input_at. destruct (k <? 0) eqn:Ek; [reflexivity|].
  apply Z.ltb_ge in Ek. apply nth_error_set_input_other. lia.
Qed.

(** An aligned [SignResultPacket] overwrites: whatever the inputs held,
    afterwards their scripts are the scripts of the packet and their
    witnesses its witnesses, in order; injecting it once more changes
    nothing. *)
Theorem SignResultPacket_inject_overwrites (total : Z)
  (witness : list Witness) (script : list Script) (inputs : list Input) :
  List.length script = List.length inputs ->
  List.length witness = List.length inputs ->
  exists result,
    SignResultPacket_inject (SignResultPacket total witness script) inputs
    = (Ok tt, result)
    /\ map input_script result = script
    /\ map input_witness result = witness
    /\ SignResultPacket_inject (SignResultPacket total witness script) result
       = (Ok tt, result).
Proof.
  intros Hs Hw. rewrite SignResultPacket_inject_aligned by assumption.
  eexists. split; [reflexivity|].
  destruct (signed_inputs_combine script witness ltac:(congruence))
    as [Hscript Hwitness].
  split; [exact Hscript|]. split; [exact Hwitness|].
  apply SignResultPacket_inject_aligned;
    rewrite length_map, length_combine; lia.
Qed.

(** *** What any [fromRaw] returns *)

Lemma pbind_Ok {A B} (p : Parser A) (k : A -> Parser B) (s : list byte)
  (x : B * list byte) :
  pbind p k s = Ok x -> exists a s', p s = Ok (a, s') /\ k a s' = Ok x.
Proof.
  unfold pbind. destruct (p s) as [[a s']|]; [|discriminate].
  intros H. now exists a, s'.
Qed.

Lemma run_Ok {A} (p : Parser A) (data : list byte) (a : A) :
  run p data = Ok a -> exists rest, p data = Ok (a, rest).
Proof.
  unfold run. destruct (p data) as [[a' rest]|]; [|discriminate].
  intros H. apply Ok_inj in H. subst. now exists rest.
Qed.

Lemma pret_Ok {A} (a : A) (s : list byte) (x : A * list byte) :
  pret a s = Ok x -> x = (a, s).
Proof. unfold pret. intros H. now apply Ok_inj in H. Qed.

Lemma plift_Ok {A} (r : Res A) (s : list byte) (x : A * list byte) :
  plift r s = Ok x -> exists a, r = Ok a /\ x = (a, s).
Proof.
  unfold plift. destruct r as [a|]; [|discriminate].
  intros H. apply Ok_inj in H. now exists a.
Qed.

(** A successful [fromRaw] body taken apart, read by read. *)
Ltac open_reads H :=
  autounfold with fromRaw in H;
  repeat match type of H with
         | run _ _ = Ok _ =>
           apply run_Ok in H; destruct H as [? H]
         | pbind _ _ _ = Ok _ =>
           apply pbind_Ok in H; destruct H as (? & ? & ? & H); cbv beta in H
         end;
  apply pret_Ok in H;
  repeat match goal with
         | E : pbind _ _ _ = Ok _ |- _ =>
           apply pbind_Ok in E; destruct E as (? & ? & ? & E); cbv beta in E
         | E : pret _ _ = Ok _ |- _ => apply pret_Ok in E
         | E : plift _ _ = Ok _ |- _ =>
           apply plift_Ok in E; destruct E as (? & ? & E)
         end;
  repeat match goal with
         | E : (_, _) = (_, _) |- _ => injection E as ? ?
         end;
  subst.

(** The twenty command codes, one goal each, [fromRaw_of] computed. *)
Ltac by_code c H :=
  unfold decode in H;
  destruct c as [|c|c];
  [ | do 5 (try destruct c as [c|c|]) | ];
  cbn [fromRaw_of] in H; try discriminate H.

Lemma le_value_range (bs : list byte) :
  0 <= le_value bs < 256 ^ Z.of_nat (List.length bs).
Proof.
  induction bs as [|b bs IH].
  - cbn. lia.
  - cbn [le_value List.length]. rewrite Nat2Z.inj_succ, Z.pow_succ_r by lia.
    pose proof (byte_to_Z_range b). lia.
Qed.

Lemma readBytes_length (n : Z) (s bs rest : list byte) :
  readBytes n s = Ok (bs, rest) -> blen bs = n /\ s = bs ++ rest.
Proof.
  unfold readBytes.
  destruct ((0 <=? n) && (n <=? blen s)) eqn:E; [|discriminate].
  apply andb_true_iff in E. destruct E as [E1 E2].
  apply Z.leb_le in E1, E2. intros H. apply Ok_inj in H.
  injection H as <- <-. split; [|now rewrite firstn_skipn].
  unfold blen in *. rewrite length_firstn. lia.
Qed.

Lemma readU32_range (s rest : list byte) (v : Z) :
  readU32 s = Ok (v, rest) -> is_u32 v.
Proof.
  unfold readU32, readLE. intros H.
  apply pbind_Ok in H. destruct H as (bs & s' & Hb & H).
  apply pret_Ok in H. injection H as -> ->.
  apply readBytes_length in Hb. destruct Hb as [Hb _].
  pose proof (le_value_range bs) as Hr. unfold blen in Hb.
  rewrite Hb in Hr. change (256 ^ 4) with 4294967296 in Hr.
  unfold is_u32. lia.
Qed.

Lemma flags_of_read_set (v : Z) : flags_of_read v <> Some (-1).
Proof.
  unfold flags_of_read. destruct (v =? -1) eqn:E; [discriminate|].
  apply Z.eqb_neq in E. congruence.
Qed.

Lemma nonce_of_read_not_max (v : Z) : nonce_of_read v <> 4294967295.
Proof.
  unfold nonce_of_read. destruct (to_int32 v =? -1) eqn:E; [discriminate|].
  apply Z.eqb_neq in E. intros ->. now apply E.
Qed.

(** Whatever bytes it is given, a [fromRaw] that returns a packet returns
    one of its own variant, whose fields are their own wire image
    ([canonical]): flags are never -1, the 32-bit fields of a [MinePacket]
    and a [ScryptPacket] lie in 0..2^32-1, a nonce is never 4294967295, the
    fields of an error are strings. *)
Lemma decode_inversion (c : Z) (data : list byte) (q : packet) :
  decode c data = Ok q ->
  cmd q = c /\ canonical q /\ exists bs, toWriter q = Ok bs.
Proof.
  intros H. by_code c H; open_reads H; cbn [cmd canonical toWriter];
    (split; [reflexivity|]); (split; [|try (eexists; reflexivity)]);
    unfold error_is_text, is_string; cbn [message stack type view];
    repeat split; eauto using flags_of_read_set, nonce_of_read_not_max;
    try (eapply readU32_range; eassumption).
  - now rewrite !length_map, Nat.eqb_refl; eexists.
Qed.

(** Dispatch: the packet decoded under a command code is of the variant
    that owns the code. *)
Theorem decoded_variant (c : Z) (data : list byte) (q : packet) :
  decode c data = Ok q -> cmd q = c /\ 0 <= c <= 19.
Proof.
  intros H. destruct (decode_inversion c data q H) as [Hc _].
  split; [exact Hc|]. subst c. destruct q; cbn; lia.
Qed.

(** Whatever the bytes, a decoded packet holds no value that the wire
    cannot carry back: flags are null or other than -1, the 32-bit fields of
    a [MinePacket] and a [ScryptPacket] lie within 0..2^32-1, a nonce is -1
    or below 4294967295, error fields are strings, and the transaction of a
    [SignInputPacket] has an empty view. *)
Theorem decoded_canonical (c : Z) (data : list byte) (q : packet) :
  decode c data = Ok q -> canonical q.
Proof. intros H. now destruct (decode_inversion c data q H) as (_ & Hq & _). Qed.

(** [SignResultPacket.fromRaw] pushes one witness for every script it
    pushes: whatever the bytes, the two arrays of the packet it returns
    have the same length, and that packet passes the assertion of
    [toWriter]. *)
Theorem SignResultPacket_fromRaw_aligned (data : list byte) (total : Z)
  (witness : list Witness) (script : list Script) :
  run SignResultPacket_fromRaw data = Ok (SignResultPacket total witness script)
  ->
  List.length script = List.length witness
  /\ exists bs, toWriter (SignResultPacket total witness script) = Ok bs.
Proof.
  intros H. open_reads H.
  rewrite !length_map. split; [reflexivity|].
  cbn [toWriter]. rewrite !length_map, Nat.eqb_refl. now eexists.
Qed.

(** *** Where [toWriter] and [getSize] fail *)

Lemma sizePairs_Err (script : list Script) :
  forall (witness : list Witness) (e : error),
    sizePairs script witness = Err e
    <-> (List.length witness < List.length script)%nat /\ e = EType.
Proof.
  induction script as [|s script IH]; intros [|w witness] e;
    cbn [sizePairs List.length].
  - split; [discriminate|lia].
  - split; [discriminate|lia].
  - split; [intros H; split; [lia|congruence] | now intros [_ ->]].
  - destruct (sizePairs script witness) as [n|e'] eqn:E; cbn [rbind].
    + split; [discriminate|]. intros [Hl ->].
      assert (Hn : sizePairs script witness = Err EType)
        by (apply IH; split; [lia|reflexivity]).
      congruence.
    + apply IH in E. destruct E as [Hl ->].
      split; [intros H; split; [lia|congruence] | now intros [_ ->]].
Qed.

(** On a [SignResultPacket], [toWriter] fails exactly when the two arrays
    differ in length, and on its assertion; [getSize] fails exactly when a
    witness is missing for some script, and on the missing object.  With
    more witnesses than scripts [getSize] therefore returns a size for a
    packet that [toWriter] rejects. *)
Theorem toWriter_getSize_failures (total : Z) (witness : list Witness)
  (script : list Script) (e : error) :
  (toWriter (SignResultPacket total witness script) = Err e
   <-> List.length script <> List.length witness /\ e = EAssert)
  /\ (getSize (SignResultPacket total witness script) = Err e
      <-> (List.length witness < List.length script)%nat /\ e = EType).
Proof.
  split.
  - cbn [toWriter].
    destruct (Nat.eqb (List.length script) (List.length witness)) eqn:E.
    + apply Nat.eqb_eq in E. split; [discriminate|]. intros [Hne _]. tauto.
    + apply Nat.eqb_neq in E. split.
      * intros H. split; [exact E | congruence].
      * intros [_ ->]. reflexivity.
  - cbn [getSize].
    destruct (sizePairs script witness) as [n|e'] eqn:E; cbn [rbind].
    + split; [discriminate|]. intros [Hl ->].
      assert (Hn : sizePairs script witness = Err EType)
        by (apply sizePairs_Err; split; [exact Hl|reflexivity]).
      congruence.
    + apply sizePairs_Err in E. destruct E as [Hl ->]. split.
      * intros H. split; [exact Hl | congruence].
      * intros [_ ->]. reflexivity.
Qed.

(** *** Decoding and writing again *)

Lemma byte_of_Z_mod (v : Z) : byte_of_Z (v mod 256) = byte_of_Z v.
Proof. unfold byte_of_Z. now rewrite Z.mod_mod by lia. Qed.

Lemma le_bytes_mod (n : nat) :
  forall v : Z, le_bytes n (v mod 256 ^ Z.of_nat n) = le_bytes n v.
Proof.
  induction n as [|n IH]; intros v; [reflexivity|].
  cbn [le_bytes]. rewrite Nat2Z.inj_succ, Z.pow_succ_r by lia.
  assert (Hp : 0 < 256 ^ Z.of_nat n) by (apply Z.pow_pos_nonneg; lia).
  f_equal.
  - rewrite <- (byte_of_Z_mod (v mod _)), <- (byte_of_Z_mod v).
    f_equal. apply Z.mod_mod_divide.
    exists (256 ^ Z.of_nat n). lia.
  - replace (v mod (256 * 256 ^ Z.of_nat n) / 256)
      with ((v / 256) mod 256 ^ Z.of_nat n); [apply IH|].
    rewrite Z.rem_mul_r by lia.
    rewrite (Z.mul_comm 256), Z.div_add by lia.
    rewrite (Z.div_small (v mod 256)) by (apply Z.mod_pos_bound; lia).
    reflexivity.
Qed.

Lemma writeU32_to_uint32 (v : Z) : writeU32 (to_uint32 v) = writeU32 v.
Proof. apply (le_bytes_mod 4). Qed.

Lemma writeU32_nonce_of_read (v : Z) :
  writeU32 (nonce_of_read (to_uint32 v)) = writeU32 v.
Proof.
  unfold nonce_of_read.
  destruct (to_int32 (to_uint32 v) =? -1) eqn:E;
    [|apply writeU32_to_uint32].
  apply Z.eqb_eq in E. rewrite <- (writeU32_to_uint32 v).
  rewrite <- (writeU32_to_uint32 (-1)). f_equal.
  unfold to_int32, to_uint32 in *.
  pose proof (Z.mod_pos_bound v (2 ^ 32) ltac:(lia)) as Hv.
  change (2 ^ 32) with 4294967296 in *. change (2 ^ 31) with 2147483648 in *.
  change (-1 mod 4294967296) with 4294967295.
  destruct (Z_lt_le_dec (v mod 4294967296) 2147483648) as [Hlt|Hge].
  - rewrite Z.mod_small in E by lia. lia.
  - replace ((v mod 4294967296 + 2147483648) mod 4294967296)
      with (v mod 4294967296 - 2147483648) in E
      by (apply (Zmod_unique _ _ 1); lia).
    lia.
Qed.

Lemma flags_or_unset_of_read (flags : option Z) :
  flags_or_unset (flags_of_read (flags_or_unset flags)) = flags_or_unset flags.
Proof.
  unfold flags_of_read.
  destruct (flags_or_unset flags =? -1) eqn:E; [|reflexivity].
  apply Z.eqb_eq in E. cbn. congruence.
Qed.

Lemma toWriter_received (p : packet) :
  cmd p <> 0 -> toWriter (received p) = toWriter p.
Proof.
  intros Hc. destruct p; cbn [received toWriter]; try reflexivity.
  - now cbn in Hc.
  - now rewrite flags_or_unset_of_read.
  - now rewrite flags_or_unset_of_read.
  - now rewrite !writeU32_to_uint32.
  - now rewrite writeU32_nonce_of_read.
  - now rewrite !writeU32_to_uint32.
Qed.

(** A packet other than an [EventPacket] that is decoded and written again
    gives the bytes it was decoded from: the values [fromRaw] replaces
    (unset by set, -1 by null, a value by its string) are written as what
    they replace. *)
Theorem decoded_writes_same_bytes (p : packet) :
  valid p -> cmd p <> 0 ->
  exists bs q,
    toWriter p = Ok bs /\ decode (cmd p) bs = Ok q /\ toWriter q = Ok bs.
Proof.
  intros Hv Hc. destruct (toWriter_valid p Hv) as [bs Hbs].
  exists bs, (received p). split; [exact Hbs|]. split.
  - rewrite <- (app_nil_r bs). now apply decode_toWriter.
  - now rewrite toWriter_received.
Qed.

(** [EventPacket.fromRaw] sets [items] and leaves [json] as the constructor
    computed it for no items: the packet it returns, whatever it carries,
    is written and sized as the JSON text of the empty array. *)
Theorem EventPacket_fromRaw_json (data : list byte) (q : packet) :
  run EventPacket_fromRaw data = Ok q ->
  toWriter q = Ok (writeVarString (stringify empty_array))
  /\ getSize q = Ok (sizeVarString (stringify empty_array)).
Proof. intros H. open_reads H. split; reflexivity. Qed.

(** *** One wire form, one packet *)

Lemma same_fields_sym (p q : packet) : same_fields p q -> same_fields q p.
Proof.
  destruct p, q; cbn [same_fields]; intros H; try contradiction;
    try discriminate H; try (symmetry; exact H).
Qed.

Lemma same_fields_trans (p r q : packet) :
  same_fields p r -> same_fields r q -> same_fields p q.
Proof.
  destruct p, r; cbn [same_fields]; intros H; try contradiction;
    try discriminate H;
    try (injection H as ?; subst; intros H'; exact H').
  subst. destruct q; cbn [same_fields]; auto.
Qed.

(** Two well-formed packets of one variant, each its own wire image, that
    are written as the same bytes have the same fields. *)
Theorem toWriter_injective (p q : packet) (bs : list byte) :
  valid p -> valid q -> canonical p -> canonical q -> cmd p = cmd q ->
  toWriter p = Ok bs -> toWriter q = Ok bs -> same_fields p q.
Proof.
  intros Hvp Hvq Hcp Hcq Hcmd Hp Hq.
  pose proof (decode_toWriter p bs [] Hvp Hp) as Dp.
  pose proof (decode_toWriter q bs [] Hvq Hq) as Dq.
  rewrite Hcmd, Dq in Dp. apply Ok_inj in Dp.
  apply (same_fields_trans p (received p) q).
  - now apply received_canonical.
  - rewrite <- Dp. apply same_fields_sym. now apply received_canonical.
Qed.

(** *** The fixed-size packets *)

Lemma readBytes_Ok (n : Z) (s : list byte) :
  0 <= n <= blen s ->
  readBytes n s = Ok (firstn (Z.to_nat n) s, skipn (Z.to_nat n) s).
Proof.
  intros H. unfold readBytes.
  replace ((0 <=? n) && (n <=? blen s)) with true; [reflexivity|].
  symmetry. apply andb_true_iff. split; apply Z.leb_le; lia.
Qed.

Lemma blen_skipn (n : nat) (s : list byte) :
  blen (skipn n s) = Z.max 0 (blen s - Z.of_nat n).
Proof. unfold blen. rewrite length_skipn. lia. Qed.

Lemma readU32_Ok (s : list byte) :
  4 <= blen s ->
  readU32 s = Ok (le_value (firstn 4 s), skipn 4 s).
Proof.
  intros H. unfold readU32, readLE, pbind.
  rewrite readBytes_Ok by lia. reflexivity.
Qed.

(** [MinePacket.fromRaw] accepts exactly the inputs of at least 120 bytes:
    below that it fails with a framing error, and from 120 bytes on it
    succeeds whatever the bytes are, with the header, the target and the two
    bounds cut out of the first 120 and nothing checked about them. *)
Theorem MinePacket_fromRaw_120 (data : list byte) :
  (blen data < 120 -> run MinePacket_fromRaw data = Err EFraming)
  /\ (120 <= blen data ->
      run MinePacket_fromRaw data
      = Ok (MinePacket (firstn 80 data) (firstn 32 (skipn 80 data))
                       (le_value (firstn 4 (skipn 112 data)))
                       (le_value (firstn 4 (skipn 116 data))))).
Proof.
  unfold run, MinePacket_fromRaw, pbind, pret. split; intros H.
  - destruct (Z_lt_le_dec (blen data) 80) as [H80|H80];
      [now rewrite readBytes_short|].
    rewrite readBytes_Ok by lia. change (Z.to_nat 80) with 80%nat.
    destruct (Z_lt_le_dec (blen data) 112) as [H112|H112];
      [now rewrite readBytes_short by (rewrite blen_skipn; lia)|].
    rewrite readBytes_Ok by (rewrite blen_skipn; lia).
    change (Z.to_nat 32) with 32%nat. rewrite skipn_skipn.
    destruct (Z_lt_le_dec (blen data) 116) as [H116|H116];
      [now rewrite readU32_short by (rewrite blen_skipn; lia)|].
    rewrite readU32_Ok by (rewrite blen_skipn; lia). rewrite skipn_skipn.
    now rewrite readU32_short by (rewrite blen_skipn; lia).
  - rewrite readBytes_Ok by lia. change (Z.to_nat 80) with 80%nat.
    rewrite readBytes_Ok by (rewrite blen_skipn; lia).
    change (Z.to_nat 32) with 32%nat. rewrite skipn_skipn.
    rewrite readU32_Ok by (rewrite blen_skipn; lia). rewrite skipn_skipn.
    rewrite readU32_Ok by (rewrite blen_skipn; lia). reflexivity.
Qed.

(** *** Sentinels on the wire *)

(** C3, as amended.  Null flags of a [VerifyPacket] and of a
    [VerifyInputPacket] and the unset nonce of a [MineResultPacket] are
    written as FF FF FF FF and decoded as null and as unset (-1) again.  The
    unset bounds of a [MinePacket] are written as FF FF FF FF too, the bytes
    of the bound 4294967295, and decoded as 4294967295. *)
Theorem sentinels_round_trip (tx : TX) (view : CoinView) (index : Z)
  (coin : Output) (data target : list byte) :
  objOk tx -> viewOk view tx -> is_varint index -> coin_ok coin ->
  blen data = 80 -> blen target = 32 ->
  let unset := [xff; xff; xff; xff] in
  let verify := objWrite tx ++ viewWrite view tx ++ unset in
  let verify_input :=
    objWrite tx ++ writeVarint index ++ writeVarint (coin_value coin)
    ++ objWrite (coin_script coin) ++ unset in
  let mine := data ++ target ++ unset ++ unset in
  (toWriter (VerifyPacket tx view None) = Ok verify
   /\ run VerifyPacket_fromRaw verify = Ok (VerifyPacket tx view None))
  /\ (toWriter (VerifyInputPacket tx index coin None) = Ok verify_input
      /\ run VerifyInputPacket_fromRaw verify_input
         = Ok (VerifyInputPacket tx index coin None))
  /\ (toWriter (MineResultPacket (-1)) = Ok unset
      /\ run MineResultPacket_fromRaw unset = Ok (MineResultPacket (-1)))
  /\ (toWriter (MinePacket data target (-1) (-1)) = Ok mine
      /\ toWriter (MinePacket data target 4294967295 4294967295) = Ok mine
      /\ run MinePacket_fromRaw mine
         = Ok (MinePacket data target 4294967295 4294967295)).
Proof.
  intros Htx Hview Hindex Hcoin Hdata Htarget unset verify verify_input mine.
  assert (Hread : forall p bs, valid p -> toWriter p = Ok bs ->
                    decode (cmd p) bs = Ok (received p)).
  { intros p bs Hv Hw. rewrite <- (app_nil_r bs). now apply decode_toWriter. }
  split; [|split; [|split]].
  - assert (Hw : toWriter (VerifyPacket tx view None) = Ok verify)
      by reflexivity.
    assert (Hv : valid (VerifyPacket tx view None))
      by (cbn [valid flags_ok]; tauto).
    split; [exact Hw|]. exact (Hread _ _ Hv Hw).
  - assert (Hw : toWriter (VerifyInputPacket tx index coin None)
                 = Ok verify_input) by reflexivity.
    assert (Hv : valid (VerifyInputPacket tx index coin None))
      by (cbn [valid flags_ok]; tauto).
    split; [exact Hw|]. exact (Hread _ _ Hv Hw).
  - assert (Hw : toWriter (MineResultPacket (-1)) = Ok unset) by reflexivity.
    assert (Hv : valid (MineResultPacket (-1))) by (left; reflexivity).
    split; [exact Hw|]. exact (Hread _ _ Hv Hw).
  - assert (Hw : toWriter (MinePacket data target (-1) (-1)) = Ok mine)
      by reflexivity.
    assert (Hv : valid (MinePacket data target (-1) (-1)))
      by (cbn [valid]; repeat split; try assumption; left; reflexivity).
    split; [exact Hw|split; [reflexivity|]]. exact (Hread _ _ Hv Hw).
Qed.

End Packets.

(** ** The small instance meets the interface's laws *)

#[global] Instance byte_codec_laws : CodecLaws byte.
Proof. split; intros; reflexivity. Qed.

#[global] Instance bytes_codec_laws : CodecLaws (list byte).
Proof.
  split; cbn [objOk objRead objWrite objSize bytes_codec]; intros.
  - now apply readVarBytes_writeVarBytes.
  - apply blen_writeVarBytes.
  - now apply readVarBytes_short.
Qed.

#[global] Instance byte_view_laws : ViewLaws byte byte.
Proof. split; intros; reflexivity. Qed.

#[global] Instance text_json_laws : JsonLaws string.
Proof. split; intros; reflexivity. Qed.



(** ** The packets at concrete inputs *)

Local Abbreviation packet0 := (@packet string byte byte byte (list byte) byte).
Local Abbreviation decode0 :=
  (@decode string byte byte byte (list byte) byte _ _ _ _ _ _).

(** A pay-to-pubkey-hash script of 25 bytes. *)
Local Abbreviation p2pkh :=
  ([x76; xa9; x14;
    x01; x02; x03; x04; x05; x06; x07; x08; x09; x0a;
    x0b; x0c; x0d; x0e; x0f; x10; x11; x12; x13; x14;
    x88; xac] : list byte).

(** The scenarios of section 8 of the specification. *)
Local Abbreviation verify_input_50btc :=
  (VerifyInputPacket x2a 0
     {| coin_value := 5000000000; coin_script := p2pkh |} None : packet0).

Local Abbreviation mine_full_range :=
  (MinePacket (repeat x00 80) (repeat xff 32) 0 4294967295 : packet0).

Local Abbreviation mine_unset :=
  (MinePacket (repeat x00 80) (repeat xff 32) (-1) (-1) : packet0).

Local Abbreviation der_signature := (ECSignResultPacket (repeat x30 71) : packet0).

Local Abbreviation untyped_error :=
  (ErrorPacket {| message := JStr ""; stack := JStr ""; type := JUndefined |}
   : packet0).

Ltac by_computation :=
  vm_compute; repeat split;
  first [ discriminate | reflexivity | left; reflexivity
        | right; split; discriminate ].

Example verify_input_50btc_bytes :
  toWriter verify_input_50btc
  = Ok ([x2a]
        ++ [x00]
        ++ [xff; x00; xf2; x05; x2a; x01; x00; x00; x00]
        ++ (x19 :: p2pkh)
        ++ [xff; xff; xff; xff]).
Proof. reflexivity. Qed.

Example mine_full_range_bytes :
  (exists bs, toWriter mine_full_range = Ok bs /\ List.length bs = 120%nat
              /\ decode0 16 bs = Ok mine_full_range)
  /\ getSize mine_full_range = Ok 120.
Proof. split; [eexists; split; [reflexivity|]|]; by_computation. Qed.

Example der_signature_bytes :
  exists bs, toWriter der_signature = Ok bs /\ List.length bs = 72%nat
             /\ decode0 15 bs = Ok der_signature.
Proof. eexists; split; [reflexivity|]; by_computation. Qed.

Example identities_from_fresh_counter :
  map fst (construct [mine_unset; der_signature; untyped_error] Packet_id_init)
  = [1; 2; 3].
Proof. reflexivity. Qed.

Example identities_across_wraparound :
  map fst (construct [mine_unset; der_signature; untyped_error]
                     (2 ^ 32 - 2))
  = [4294967295; 0; 1].
Proof. reflexivity. Qed.

Example inject_aligned_writes_all :
  SignResultPacket_inject
    (SignResultPacket 2 [x01; x02] [p2pkh; []] : packet0)
    [ {| input_script := []; input_witness := x00 |};
      {| input_script := []; input_witness := x00 |} ]
  = (Ok tt, [ {| input_script := p2pkh; input_witness := x01 |};
              {| input_script := []; input_witness := x02 |} ]).
Proof. reflexivity. Qed.

(** Values that are well formed and not their own wire image: literal -1
    flags, the nonce 4294967295, a transaction sent for one input with
    coins in its view, unset Scrypt parameters. *)
Example received_differs :
  decode0 4 [x2a; x01; xff; xff; xff; xff]
  = Ok (VerifyPacket x2a x01 None)
  /\ toWriter (VerifyPacket x2a x01 (Some (-1)) : packet0)
     = Ok [x2a; x01; xff; xff; xff; xff]
  /\ decode0 17 [xff; xff; xff; xff] = Ok (MineResultPacket (-1))
  /\ toWriter (MineResultPacket 4294967295 : packet0)
     = Ok [xff; xff; xff; xff]
  /\ received (SignInputPacket {| mtx_tx := x2a; view := x01 |} 0
                 {| coin_value := 1; coin_script := [] |} x05 1 : packet0)
     = SignInputPacket {| mtx_tx := x2a; view := x00 |} 0
         {| coin_value := 1; coin_script := [] |} x05 1
  /\ received (ScryptPacket [] [] (-1) (-1) (-1) (-1) : packet0)
     = ScryptPacket [] [] 4294967295 4294967295 4294967295 4294967295.
Proof. repeat split. Qed.

(** C1, as stated, fails: an error without a type tag is well formed, and
    decoding its bytes gives an error whose type tag is the empty string,
    which is another packet. *)
Lemma roundtrip_fails_on_untyped_error :
  valid untyped_error
  /\ toWriter untyped_error = Ok [x00; x00; x00]
  /\ decode0 (cmd untyped_error) [x00; x00; x00]
     = Ok (ErrorPacket
             {| message := JStr ""; stack := JStr ""; type := JStr "" |})
  /\ decode0 (cmd untyped_error) [x00; x00; x00] <> Ok untyped_error.
Proof. by_computation. Qed.

Lemma roundtrip_canonical_witness :
  valid verify_input_50btc /\ canonical verify_input_50btc
  /\ exists bs q,
       toWriter verify_input_50btc = Ok bs
       /\ decode0 (cmd verify_input_50btc) bs = Ok q
       /\ same_fields verify_input_50btc q.
Proof.
  assert (Hv : valid verify_input_50btc) by by_computation.
  assert (Hc : canonical verify_input_50btc) by by_computation.
  split; [exact Hv|]. split; [exact Hc|].
  exact (roundtrip_canonical verify_input_50btc Hv Hc).
Defined.

Lemma size_accuracy_witness :
  valid mine_full_range
  /\ exists bs,
       toWriter mine_full_range = Ok bs
       /\ getSize mine_full_range = Ok (Z.of_nat (List.length bs)).
Proof.
  assert (Hv : valid mine_full_range) by by_computation.
  split; [exact Hv|]. exact (size_accuracy mine_full_range Hv).
Defined.

(** C3, as stated, fails: a [MinePacket] with [min] and [max] unset is well
    formed; both are written as FF FF FF FF and decoded as 4294967295, not
    as -1. *)
Lemma mine_unset_decodes_as_u32 :
  valid mine_unset
  /\ toWriter mine_unset
     = Ok (repeat x00 80 ++ repeat xff 32 ++ repeat xff 8)
  /\ run MinePacket_fromRaw
         (repeat x00 80 ++ repeat xff 32 ++ repeat xff 8)
     = Ok (MinePacket (repeat x00 80) (repeat xff 32) 4294967295 4294967295
           : packet0)
  /\ run MinePacket_fromRaw
         (repeat x00 80 ++ repeat xff 32 ++ repeat xff 8)
     <> Ok mine_unset.
Proof. by_computation. Qed.

Lemma sentinels_round_trip_witness :
  let unset := [xff; xff; xff; xff] in
  let coin := {| coin_value := 5000000000; coin_script := p2pkh |} in
  let verify := [x2a; x01] ++ unset in
  let verify_input :=
    [x2a; x00; xff; x00; xf2; x05; x2a; x01; x00; x00; x00]
    ++ (x19 :: p2pkh) ++ unset in
  let mine := repeat x00 80 ++ repeat xff 32 ++ unset ++ unset in
  (toWriter (VerifyPacket x2a x01 None : packet0) = Ok verify
   /\ run VerifyPacket_fromRaw verify
      = Ok (VerifyPacket x2a x01 None : packet0))
  /\ (toWriter verify_input_50btc = Ok verify_input
      /\ run VerifyInputPacket_fromRaw verify_input = Ok verify_input_50btc)
  /\ (toWriter (MineResultPacket (-1) : packet0) = Ok unset
      /\ run MineResultPacket_fromRaw unset
         = Ok (MineResultPacket (-1) : packet0))
  /\ (toWriter mine_unset = Ok mine
      /\ toWriter (MinePacket (repeat x00 80) (repeat xff 32)
                              4294967295 4294967295 : packet0) = Ok mine
      /\ run MinePacket_fromRaw mine
         = Ok (MinePacket (repeat x00 80) (repeat xff 32)
                          4294967295 4294967295 : packet0)).
Proof.
  intros unset coin verify verify_input mine.
  assert (Hindex : is_varint 0) by (vm_compute; split; discriminate).
  assert (Hcoin : coin_ok coin)
    by (split; vm_compute; split; discriminate).
  exact (sentinels_round_trip (J := string) (KeyRing := byte)
           (Witness := byte) x2a x01 0 coin (repeat x00 80) (repeat xff 32)
           I I Hindex Hcoin eq_refl eq_refl).
Defined.

Lemma inject_rejects_misaligned_witness :
  let inputs : list (@Input (list byte) byte) :=
    [ {| input_script := []; input_witness := x00 |};
      {| input_script := []; input_witness := x00 |} ] in
  SignResultPacket_inject
    (SignResultPacket 1 [x01] [p2pkh] : packet0) inputs
  = (Err EAssert, inputs)
  /\ SignInputResultPacket_inject
       (SignInputResultPacket true x01 p2pkh : packet0) inputs 2
     = (Err EAssert, inputs).
Proof.
  intros inputs.
  destruct (inject_rejects_misaligned (J := string) (TX := byte)
              (CoinView := byte) (KeyRing := byte)
              1 [x01] [p2pkh] true x01 p2pkh inputs 2) as [H1 H2].
  split.
  - apply H1. left. discriminate.
  - apply H2. reflexivity.
Defined.

Lemma truncation_rejected_witness :
  valid der_signature
  /\ exists bs,
       toWriter der_signature = Ok bs
       /\ decode0 (cmd der_signature) (removelast bs) = Err EFraming.
Proof.
  assert (Hv : valid der_signature) by by_computation.
  split; [exact Hv|]. exact (truncation_rejected der_signature Hv).
Defined.

(** C7, as stated, fails: the first identity given out by a fresh counter
    is not 0. *)
Lemma first_identity_is_not_zero : fst (Packet Packet_id_init) <> 0.
Proof. discriminate. Qed.

Lemma trailing_bytes_ignored_witness :
  valid verify_input_50btc
  /\ exists bs q,
       toWriter verify_input_50btc = Ok bs
       /\ decode0 (cmd verify_input_50btc) bs = Ok q
       /\ forall extra, decode0 (cmd verify_input_50btc) (bs ++ extra) = Ok q.
Proof.
  assert (Hv : valid verify_input_50btc) by by_computation.
  split; [exact Hv|]. exact (trailing_bytes_ignored verify_input_50btc Hv).
Defined.

Lemma result_byte_is_one_witness :
  run VerifyResultPacket_fromRaw [x02]
  = Ok (VerifyResultPacket false : packet0)
  /\ run SignInputResultPacket_fromRaw (x02 :: x19 :: p2pkh ++ [x07])
     = Ok (SignInputResultPacket false x07 p2pkh : packet0).
Proof.
  assert (Hs : objOk p2pkh) by by_computation.
  assert (Hw : objOk x07) by exact I.
  destruct (result_byte_is_one (J := string) (TX := byte) (CoinView := byte)
              (KeyRing := byte) x02 [] p2pkh x07 Hs Hw)
    as (H5 & _ & _ & H11 & _).
  split; [exact H5 | exact H11].
Defined.

Lemma error_fields_are_text_witness :
  let e := {| message := JUndefined; stack := JNull; type := JUndefined |} in
  let received :=
    (ErrorPacket
       {| message := JStr "undefined"; stack := JStr "null"; type := JStr "" |}
     : packet0) in
  let written :=
    [x09; x75; x6e; x64; x65; x66; x69; x6e; x65; x64;
     x04; x6e; x75; x6c; x6c;
     x00] in
  falsy (type e) = true
  /\ run ErrorPacket_fromRaw written = Ok received
  /\ (toWriter (ErrorPacket e : packet0) = Ok written
      /\ toWriter (ErrorResultPacket e : packet0) = Ok written)
  /\ exists m s t,
       received
       = ErrorPacket {| message := JStr m; stack := JStr s; type := JStr t |}.
Proof.
  intros e received written.
  destruct (error_fields_are_text (J := string) (TX := byte)
              (CoinView := byte) (KeyRing := byte) (Script := list byte)
              (Witness := byte) e written received)
    as (_ & Hw & Hd & _).
  split; [reflexivity|split; [reflexivity|split]].
  - exact (Hw eq_refl).
  - apply Hd. reflexivity.
Defined.

Lemma identity_monotone_witness :
  let bodies := [mine_unset; der_signature; untyped_error] in
  let c := 2 ^ 32 - 2 in
  let ids := map fst (construct bodies c) in
  (0 <= c /\ c + Z.of_nat (List.length bodies) < 2 ^ 53)
  /\ ids = [4294967295; 0; 1]
  /\ List.length ids = List.length bodies
  /\ (forall k, (k < List.length bodies)%nat ->
        nth k ids 0 = to_uint32 (c + 1 + Z.of_nat k))
  /\ (forall k, (S k < List.length bodies)%nat ->
        nth (S k) ids 0 = to_uint32 (nth k ids 0 + 1))
  /\ (forall i j, (i < j < List.length bodies)%nat ->
        nth i ids 0 = nth j ids 0 ->
        (Z.of_nat j - Z.of_nat i) mod 2 ^ 32 = 0).
Proof.
  intros bodies c ids.
  assert (H0 : 0 <= c) by (vm_compute; discriminate).
  assert (Hc : c + Z.of_nat (List.length bodies) < 2 ^ 53)
    by (vm_compute; reflexivity).
  split; [split; [exact H0 | exact Hc]|].
  split; [reflexivity|].
  exact (identity_monotone bodies c H0 Hc).
Defined.

(** ** SipHash *)

Lemma u64_word (x : Z) : word (u64 x).
Proof. unfold word, u64. apply Z.mod_pos_bound. lia. Qed.

Lemma u64_small (x : Z) : word x -> u64 x = x.
Proof. unfold word, u64. intros H. now apply Z.mod_small. Qed.

Lemma word_testbit_high (x n : Z) : word x -> 64 <= n -> Z.testbit x n = false.
Proof.
  intros Hx Hn. rewrite <- (u64_small x Hx). unfold u64.
  rewrite Z.testbit_mod_pow2 by lia.
  replace (n <? 64) with false by (symmetry; apply Z.ltb_ge; lia).
  reflexivity.
Qed.

Lemma word_of_bits (x : Z) :
  (forall n, 64 <= n -> Z.testbit x n = false) -> word x.
Proof.
  intros H. replace x with (u64 x); [apply u64_word|].
  apply Z.bits_inj'. intros n Hn. unfold u64.
  rewrite Z.testbit_mod_pow2 by lia.
  destruct (n <? 64) eqn:E; [reflexivity|].
  apply Z.ltb_ge in E. cbn. symmetry. now apply H.
Qed.

Lemma lxor_word (a b : Z) : word a -> word b -> word (Z.lxor a b).
Proof.
  intros Ha Hb. apply word_of_bits. intros n Hn.
  now rewrite Z.lxor_spec, !word_testbit_high.
Qed.

Lemma lor_word (a b : Z) : word a -> word b -> word (Z.lor a b).
Proof.
  intros Ha Hb. apply word_of_bits. intros n Hn.
  now rewrite Z.lor_spec, !word_testbit_high.
Qed.

Lemma ROTL_word (x b : Z) : word (ROTL x b).
Proof. apply u64_word. Qed.

Create HintDb words.
#[local] Hint Resolve u64_word lxor_word lor_word ROTL_word : words.

(** [ROTL] rotates: bit [n] of the result is bit [n - b] of [x], counted
    modulo 64. *)
Lemma ROTL_testbit (x b n : Z) :
  word x -> 0 < b < 64 -> 0 <= n ->
  Z.testbit (ROTL x b) n = (n <? 64) && Z.testbit x ((n - b) mod 64).
Proof.
  intros Hx Hb Hn. unfold ROTL, u64.
  rewrite Z.testbit_mod_pow2, Z.lor_spec, Z.testbit_mod_pow2 by lia.
  rewrite Z.shiftl_spec, Z.shiftr_spec by lia.
  destruct (n <? 64) eqn:E; [|reflexivity].
  apply Z.ltb_lt in E. cbn [andb].
  destruct (Z_lt_le_dec n b) as [Hlt|Hge].
  - rewrite (Z.testbit_neg_r x (n - b)) by lia. cbn [orb].
    f_equal. apply (Zmod_unique _ _ (-1)); lia.
  - rewrite (word_testbit_high x (n + (64 - b))) by (auto; lia).
    rewrite orb_false_r. f_equal. symmetry. apply Z.mod_small. lia.
Qed.

Lemma ROTL_undo (x b b' : Z) :
  word x -> 0 < b < 64 -> b + b' = 64 -> ROTL (ROTL x b) b' = x.
Proof.
  intros Hx Hb Hb'. apply Z.bits_inj'. intros n Hn.
  rewrite ROTL_testbit by (auto with words; lia).
  destruct (n <? 64) eqn:E.
  - apply Z.ltb_lt in E. cbn [andb].
    rewrite ROTL_testbit by (auto; try apply Z.mod_pos_bound; lia).
    pose proof (Z.mod_pos_bound (n - b') 64 ltac:(lia)) as Hm.
    replace ((n - b') mod 64 <? 64) with true
      by (symmetry; apply Z.ltb_lt; lia).
    cbn [andb]. f_equal.
    rewrite Zminus_mod_idemp_l.
    replace (n - b' - b) with (n + (-1) * 64) by lia.
    rewrite Z.mod_add by lia. apply Z.mod_small. lia.
  - apply Z.ltb_ge in E. cbn [andb]. symmetry.
    now apply word_testbit_high.
Qed.

Lemma u64_add_sub (a b : Z) : word a -> word b -> u64 (u64 (a + b) - b) = a.
Proof.
  unfold word, u64. intros Ha Hb.
  rewrite Zminus_mod_idemp_l.
  replace (a + b - b) with a by lia. now apply Z.mod_small.
Qed.

Lemma lxor_cancel_r (a b : Z) : Z.lxor (Z.lxor a b) b = a.
Proof. now rewrite Z.lxor_assoc, Z.lxor_nilpotent, Z.lxor_0_r. Qed.

Lemma SIPROUND_words (v : Z * Z * Z * Z) : words v -> words (SIPROUND v).
Proof.
  destruct v as [[[v0 v1] v2] v3]. intros (H0 & H1 & H2 & H3).
  unfold SIPROUND, words. cbv zeta.
  split; [|split; [|split]]; auto 10 with words.
Qed.

Lemma SIPROUND_undone (v : Z * Z * Z * Z) :
  words v -> SIPROUND_undo (SIPROUND v) = v.
Proof.
  destruct v as [[[v0 v1] v2] v3]. intros (H0 & H1 & H2 & H3).
  unfold SIPROUND, SIPROUND_undo. cbv zeta.
  repeat first
    [ rewrite lxor_cancel_r
    | rewrite ROTL_undo by (auto 10 with words; lia)
    | rewrite u64_add_sub by (auto 10 with words) ].
  reflexivity.
Qed.

(** [SIPROUND] is a permutation of the states of four 64-bit words: it
    keeps the words within 64 bits, and two states that it sends to the
    same state are the same. *)
Theorem SIPROUND_injective (v v' : Z * Z * Z * Z) :
  words v -> words v' ->
  words (SIPROUND v) /\ (SIPROUND v = SIPROUND v' -> v = v').
Proof.
  intros Hv Hv'. split; [now apply SIPROUND_words|].
  intros H. rewrite <- (SIPROUND_undone v Hv), <- (SIPROUND_undone v' Hv').
  now rewrite H.
Qed.

Lemma land_7 (len : Z) : Z.land len 7 = len mod 8.
Proof. change 7 with (Z.ones 3). now rewrite Z.land_ones by lia. Qed.

Lemma firstn_agree_le {A} (j k : nat) (l l' : list A) :
  (j <= k)%nat -> firstn k l = firstn k l' -> firstn j l = firstn j l'.
Proof.
  intros Hjk H.
  rewrite <- (Nat.min_l j k Hjk), <- !firstn_firstn. now rewrite H.
Qed.

Lemma skipn_agree {A} (n m : nat) (l l' : list A) :
  firstn (n + m) l = firstn (n + m) l' ->
  firstn m (skipn n l) = firstn m (skipn n l').
Proof. intros H. now rewrite !firstn_skipn_comm, H. Qed.

Lemma byte_at_agree (i k : nat) (p q : list byte) :
  (i < k)%nat -> firstn k p = firstn k q -> byte_at p i = byte_at q i.
Proof.
  intros Hik H. unfold byte_at. f_equal.
  pose proof (nth_firstn k p i x00) as Hp.
  pose proof (nth_firstn k q i x00) as Hq.
  replace (i <? k)%nat with true in Hp, Hq
    by (symmetry; apply Nat.ltb_lt; exact Hik).
  now rewrite <- Hp, <- Hq, H.
Qed.

Lemma sip_tail_agree (p q : list byte) (len f0 : Z) :
  firstn (Z.to_nat (len mod 8)) p = firstn (Z.to_nat (len mod 8)) q ->
  sip_tail p len f0 = sip_tail q len f0.
Proof.
  intros H. unfold sip_tail. rewrite land_7.
  pose proof (Z.mod_pos_bound len 8 ltac:(lia)) as Hb.
  assert (Hi : forall i, Z.of_nat i < len mod 8 -> byte_at p i = byte_at q i).
  { intros i Hi.
    apply (byte_at_agree i (Z.to_nat (len mod 8)) p q); [lia | exact H]. }
  clear H. revert Hi. generalize (len mod 8) Hb. intros left Hleft Hi.
  cbv zeta.
  repeat match goal with
         | |- context [if ?k <=? left then _ else _] =>
           let E := fresh "E" in
           destruct (k <=? left) eqn:E;
           [ apply Z.leb_le in E | clear E ]
         end;
    rewrite ?(Hi 0%nat), ?(Hi 1%nat), ?(Hi 2%nat), ?(Hi 3%nat),
            ?(Hi 4%nat), ?(Hi 5%nat), ?(Hi 6%nat) by lia;
    reflexivity.
Qed.

Lemma sip_blocks_agree (READU64 : list byte -> Z) :
  (forall p q, firstn 8 p = firstn 8 q -> READU64 p = READU64 q) ->
  forall (n m : nat) (data data' : list byte) (v : Z * Z * Z * Z),
    firstn (8 * n + m) data = firstn (8 * n + m) data' ->
    snd (sip_blocks READU64 n data v) = snd (sip_blocks READU64 n data' v)
    /\ firstn m (fst (sip_blocks READU64 n data v))
       = firstn m (fst (sip_blocks READU64 n data' v)).
Proof.
  intros Hloc n. induction n as [|n IH]; intros m data data' v H.
  - cbn in *. now split.
  - destruct v as [[[v0 v1] v2] v3]. cbn [sip_blocks].
    rewrite (Hloc data data')
      by (apply (firstn_agree_le 8 (8 * S n + m)); [lia | exact H]).
    destruct (SIPROUND (SIPROUND _)) as [[[w0 w1] w2] w3].
    apply IH. apply skipn_agree.
    replace (8 + (8 * n + m))%nat with (8 * S n + m)%nat by lia. exact H.
Qed.

Lemma blocks_within (len : Z) :
  0 <= len ->
  (8 * Z.to_nat (to_uint32 (len / 8)) + Z.to_nat (len mod 8)
   <= Z.to_nat len)%nat.
Proof.
  intros Hlen. unfold to_uint32.
  pose proof (Z.mod_pos_bound len 8 ltac:(lia)) as Hm.
  pose proof (Z.div_mod len 8 ltac:(lia)) as Hd.
  assert (Hq : 0 <= len / 8) by (apply Z.div_pos; lia).
  pose proof (Z.mod_le (len / 8) (2 ^ 32) Hq ltac:(lia)) as Hle.
  pose proof (Z.mod_pos_bound (len / 8) (2 ^ 32) ltac:(lia)) as Hb.
  lia.
Qed.

(** [bcn_siphash24] reads the first [len] bytes of [data] and the first 16
    of [key], and nothing beyond: two calls whose buffers agree on those
    bytes return the same hash. *)
Theorem bcn_siphash24_reads_len (READU64 : list byte -> Z)
  (data data' key key' : list byte) (len shift : Z) :
  (forall p q, firstn 8 p = firstn 8 q -> READU64 p = READU64 q) ->
  0 <= len ->
  firstn (Z.to_nat len) data = firstn (Z.to_nat len) data' ->
  firstn 16 key = firstn 16 key' ->
  bcn_siphash24 READU64 data len key shift
  = bcn_siphash24 READU64 data' len key' shift.
Proof.
  intros Hloc Hlen Hdata Hkey. unfold bcn_siphash24.
  rewrite (Hloc key key') by (apply (firstn_agree_le 8 16); [lia|exact Hkey]).
  rewrite (Hloc (skipn 8 key) (skipn 8 key'))
    by (apply skipn_agree; exact Hkey).
  cbv zeta.
  match goal with
  | |- context [sip_blocks READU64 ?n data ?v] =>
    destruct (sip_blocks_agree READU64 Hloc n (Z.to_nat (len mod 8))
                data data' v) as [Hv Hp];
      [ apply (firstn_agree_le _ (Z.to_nat len));
          [apply blocks_within; exact Hlen | exact Hdata]
      | destruct (sip_blocks READU64 n data v) as [p w];
        destruct (sip_blocks READU64 n data' v) as [p' w'] ]
  end.
  cbn [fst snd] in Hv, Hp. subst w'.
  now rewrite (sip_tail_agree p p' len _ Hp).
Qed.

Lemma sip_blocks_pointer (READU64 : list byte -> Z) (n : nat) :
  forall (data : list byte) (v : Z * Z * Z * Z),
    fst (sip_blocks READU64 n data v) = skipn (8 * n) data.
Proof.
  induction n as [|n IH]; intros data v; [reflexivity|].
  destruct v as [[[v0 v1] v2] v3]. cbn [sip_blocks].
  destruct (SIPROUND (SIPROUND _)) as [[[w0 w1] w2] w3].
  rewrite IH, skipn_skipn. f_equal. lia.
Qed.

Lemma sip_tail_zero (p : list byte) (len f0 : Z) (left : nat) :
  len mod 8 = Z.of_nat left -> (left < 7)%nat -> byte_at p left = 0 ->
  sip_tail p (len + 1) f0 = sip_tail p len f0.
Proof.
  intros Hleft Hlt Hzero. unfold sip_tail. rewrite !land_7.
  replace ((len + 1) mod 8) with (Z.of_nat left + 1)
    by (rewrite <- Hleft, <- Zplus_mod_idemp_l;
        rewrite Hleft; symmetry; apply Z.mod_small; lia).
  rewrite Hleft. cbv zeta.
  do 7 (destruct left as [|left]; [cbn in Hzero |- *;
        rewrite ?Hzero, ?Z.shiftl_0_l, ?Z.lor_0_r; reflexivity|]).
  lia.
Qed.

(** A zero byte after the input is not told from the end of the input: when
    the byte at index [len] of the buffer is 0 and [len] is not one short of
    a multiple of 8, hashing [len + 1] bytes gives the hash of [len]
    bytes. *)
Theorem bcn_siphash24_trailing_zero (READU64 : list byte -> Z)
  (data key : list byte) (len shift : Z) :
  0 <= len < 2 ^ 35 -> len mod 8 <> 7 -> len < blen data ->
  nth (Z.to_nat len) data x00 = x00 ->
  bcn_siphash24 READU64 data (len + 1) key shift
  = bcn_siphash24 READU64 data len key shift.
Proof.
  intros Hlen H7 Hin Hzero.
  pose proof (Z.mod_pos_bound len 8 ltac:(lia)) as Hm.
  pose proof (Z.div_mod len 8 ltac:(lia)) as Hd.
  assert (Hq : (len + 1) / 8 = len / 8).
  { symmetry. apply (Z.div_unique _ _ _ (len mod 8 + 1)); lia. }
  assert (Hsmall : to_uint32 (len / 8) = len / 8).
  { apply to_uint32_small. unfold is_u32.
    change (2 ^ 35) with 34359738368 in Hlen. lia. }
  unfold bcn_siphash24. rewrite Hq, Hsmall. cbv zeta.
  match goal with
  | |- context [sip_blocks READU64 ?n data ?v] =>
    pose proof (sip_blocks_pointer READU64 n data v) as Hp;
      destruct (sip_blocks READU64 n data v) as [p w]
  end.
  cbn [fst] in Hp. subst p.
  assert (Hb : byte_at (skipn (8 * Z.to_nat (len / 8)) data)
                       (Z.to_nat (len mod 8)) = 0).
  { unfold byte_at. rewrite nth_skipn.
    replace (8 * Z.to_nat (len / 8) + Z.to_nat (len mod 8))%nat
      with (Z.to_nat len) by lia.
    now rewrite Hzero. }
  now rewrite (sip_tail_zero _ len _ (Z.to_nat (len mod 8)))
    by (try exact Hb; lia).
Qed.

(** Below 8 bytes no block is read and the length word is 0 whatever the
    shift: [bcn_siphash] and [bcn_siphash256] return the same hash. *)
Theorem bcn_siphash_short (READU64 : list byte -> Z) (data key : list byte)
  (len : Z) :
  0 <= len < 8 ->
  bcn_siphash READU64 data len key = bcn_siphash256 READU64 data len key.
Proof.
  intros Hlen. unfold bcn_siphash, bcn_siphash256, bcn_siphash24.
  rewrite (Z.div_small len 8) by lia.
  change (to_uint32 0) with 0. now rewrite !Z.shiftl_0_l.
Qed.

(** [ROTL(x, b)] is the rotation of the 64-bit word [x] by [b] bits to the
    left: a 64-bit word whose bit [n] is bit [n - b], counted modulo 64, of
    [x]; rotating on by [64 - b] gives [x] back. *)
Theorem ROTL_rotates (x b : Z) :
  word x -> 0 < b < 64 ->
  word (ROTL x b)
  /\ (forall n, 0 <= n < 64 ->
        Z.testbit (ROTL x b) n = Z.testbit x ((n - b) mod 64))
  /\ ROTL (ROTL x b) (64 - b) = x.
Proof.
  intros Hx Hb. split; [apply ROTL_word|]. split.
  - intros n Hn. rewrite ROTL_testbit by (auto; lia).
    replace (n <? 64) with true by (symmetry; apply Z.ltb_lt; lia).
    reflexivity.
  - apply ROTL_undo; auto; lia.
Qed.

(** ** The further properties at concrete inputs *)

Local Abbreviation input0 := (@Input (list byte) byte).
Local Abbreviation key16 :=
  ([x00; x01; x02; x03; x04; x05; x06; x07;
    x08; x09; x0a; x0b; x0c; x0d; x0e; x0f] : list byte).

Lemma read_le64_local (p q : list byte) :
  firstn 8 p = firstn 8 q -> read_le64 p = read_le64 q.
Proof. unfold read_le64. now intros ->. Qed.

Example bcn_siphash_vectors :
  bcn_siphash read_le64 [] 0 key16 = 0x726fdb47dd0e0e31
  /\ bcn_siphash256 read_le64 [x00; x01; x02; x03; x04; x05; x06; x07] 8 key16
     = 0x93f5f5799a932462.
Proof. split; vm_compute; reflexivity. Qed.

Lemma fromTX_then_inject_witness :
  exists result,
    SignResultPacket_inject
      (SignResultPacket_fromTX
         [ {| input_script := p2pkh; input_witness := x01 |};
           {| input_script := []; input_witness := x02 |} ] (Some 1)
       : packet0)
      [ {| input_script := []; input_witness := x00 |};
        {| input_script := []; input_witness := x00 |} ]
    = (Ok tt, result)
    /\ map input_script result = [p2pkh; []]
    /\ map input_witness result = [x01; x02].
Proof.
  exact (fromTX_then_inject (J := string) (TX := byte) (CoinView := byte)
           (KeyRing := byte)
           [ {| input_script := p2pkh; input_witness := x01 |};
             {| input_script := []; input_witness := x02 |} ]
           [ {| input_script := []; input_witness := x00 |};
             {| input_script := []; input_witness := x00 |} ]
           (Some 1) eq_refl).
Defined.

Lemma SignInputResultPacket_fromTX_then_inject_witness :
  exists (input : input0) result,
    input_at [ {| input_script := p2pkh; input_witness := x01 |} ] 0
    = Some input
    /\ SignInputResultPacket_inject
         (SignInputResultPacket true x01 p2pkh : packet0)
         [ {| input_script := []; input_witness := x00 |};
           {| input_script := []; input_witness := x00 |} ] 1
       = (Ok tt, result)
    /\ List.length result = 2%nat
    /\ option_map input_script (input_at result 1)
       = Some (input_script input)
    /\ option_map input_witness (input_at result 1)
       = Some (input_witness input)
    /\ forall k, k <> 1 ->
         input_at result k
         = input_at [ {| input_script := []; input_witness := x00 |};
                      {| input_script := []; input_witness := x00 |} ] k.
Proof.
  apply (SignInputResultPacket_fromTX_then_inject (J := string) (TX := byte)
           (CoinView := byte) (KeyRing := byte)
           [ {| input_script := p2pkh; input_witness := x01 |} ]
           [ {| input_script := []; input_witness := x00 |};
             {| input_script := []; input_witness := x00 |} ]
           0 1 (Some true)).
  - reflexivity.
  - cbn. lia.
Defined.

Lemma SignResultPacket_inject_overwrites_witness :
  exists result,
    SignResultPacket_inject
      (SignResultPacket 2 [x01; x02] [p2pkh; []] : packet0)
      [ {| input_script := [x51]; input_witness := x09 |};
        {| input_script := [x52]; input_witness := x09 |} ]
    = (Ok tt, result)
    /\ map input_script result = [p2pkh; []]
    /\ map input_witness result = [x01; x02]
    /\ SignResultPacket_inject
         (SignResultPacket 2 [x01; x02] [p2pkh; []] : packet0) result
       = (Ok tt, result).
Proof.
  exact (SignResultPacket_inject_overwrites (J := string) (TX := byte)
           (CoinView := byte) (KeyRing := byte)
           2 [x01; x02] [p2pkh; []]
           [ {| input_script := [x51]; input_witness := x09 |};
             {| input_script := [x52]; input_witness := x09 |} ]
           eq_refl eq_refl).
Defined.

Lemma decoded_variant_witness :
  cmd (MineResultPacket (-1) : packet0) = 17 /\ 0 <= 17 <= 19.
Proof.
  apply (decoded_variant 17 [xff; xff; xff; xff; x00]). reflexivity.
Defined.

Lemma decoded_canonical_witness :
  canonical (VerifyPacket x2a x01 None : packet0).
Proof.
  apply (decoded_canonical 4 [x2a; x01; xff; xff; xff; xff]). reflexivity.
Defined.

Lemma SignResultPacket_fromRaw_aligned_witness :
  List.length [p2pkh] = List.length [x07]
  /\ exists bs, toWriter (SignResultPacket 1 [x07] [p2pkh] : packet0) = Ok bs.
Proof.
  apply (SignResultPacket_fromRaw_aligned (x01 :: x01 :: x19 :: p2pkh ++ [x07])).
  reflexivity.
Defined.

Lemma decoded_writes_same_bytes_witness :
  valid mine_unset /\ cmd mine_unset <> 0
  /\ exists bs q,
       toWriter mine_unset = Ok bs /\ decode0 (cmd mine_unset) bs = Ok q
       /\ toWriter q = Ok bs.
Proof.
  assert (Hv : valid mine_unset) by by_computation.
  assert (Hc : cmd mine_unset <> 0) by discriminate.
  split; [exact Hv|]. split; [exact Hc|].
  exact (decoded_writes_same_bytes mine_unset Hv Hc).
Defined.

Lemma EventPacket_fromRaw_json_witness :
  toWriter (EventPacket "[1,2]"%string "[]"%string : packet0)
  = Ok (writeVarString "[]")
  /\ getSize (EventPacket "[1,2]"%string "[]"%string : packet0)
     = Ok (sizeVarString "[]").
Proof.
  exact (EventPacket_fromRaw_json (J := string) (TX := byte)
           (CoinView := byte) (KeyRing := byte) (Script := list byte)
           (Witness := byte) [x05; x5b; x31; x2c; x32; x5d]
           (EventPacket "[1,2]"%string "[]"%string) eq_refl).
Defined.

Lemma toWriter_injective_witness :
  same_fields mine_full_range mine_full_range.
Proof.
  assert (Hv : valid mine_full_range) by by_computation.
  assert (Hc : canonical mine_full_range) by by_computation.
  exact (toWriter_injective mine_full_range mine_full_range _ Hv Hv Hc Hc
           eq_refl eq_refl eq_refl).
Defined.

Lemma ROTL_rotates_witness :
  word 1
  /\ word (ROTL 1 13)
  /\ (forall n, 0 <= n < 64 ->
        Z.testbit (ROTL 1 13) n = Z.testbit 1 ((n - 13) mod 64))
  /\ ROTL (ROTL 1 13) (64 - 13) = 1.
Proof.
  assert (Hw : word 1) by (unfold word; lia).
  split; [exact Hw|]. apply (ROTL_rotates 1 13 Hw). lia.
Defined.

Lemma SIPROUND_injective_witness :
  words (SIPROUND (1, 2, 3, 4))
  /\ (SIPROUND (1, 2, 3, 4) = SIPROUND (1, 2, 3, 4)
      -> (1, 2, 3, 4) = (1, 2, 3, 4)).
Proof.
  assert (Hw : words (1, 2, 3, 4)) by (unfold words, word; lia).
  exact (SIPROUND_injective (1, 2, 3, 4) (1, 2, 3, 4) Hw Hw).
Defined.

Lemma bcn_siphash24_reads_len_witness :
  bcn_siphash24 read_le64 [x61; x62; x63] 2 key16 56
  = bcn_siphash24 read_le64 [x61; x62; xff; xff] 2 (key16 ++ [xee]) 56.
Proof.
  apply (bcn_siphash24_reads_len read_le64 [x61; x62; x63]
           [x61; x62; xff; xff] key16 (key16 ++ [xee]) 2 56).
  - exact read_le64_local.
  - lia.
  - reflexivity.
  - reflexivity.
Defined.

Lemma bcn_siphash24_trailing_zero_witness :
  bcn_siphash24 read_le64 [x61; x62; x00] (2 + 1) key16 56
  = bcn_siphash24 read_le64 [x61; x62; x00] 2 key16 56.
Proof.
  apply (bcn_siphash24_trailing_zero read_le64 [x61; x62; x00] key16 2 56).
  - lia.
  - vm_compute. discriminate.
  - vm_compute. reflexivity.
  - reflexivity.
Defined.

Lemma bcn_siphash_short_witness :
  bcn_siphash read_le64 [x61; x62; x63] 3 key16
  = bcn_siphash256 read_le64 [x61; x62; x63] 3 key16.
Proof. apply (bcn_siphash_short read_le64 [x61; x62; x63] key16 3). lia. Defined.
